(** * Data-access layer of the dashboard: invoices, customers, revenue, seeding.

    Shallow embedding of the two query-layer variants of the repository:
    - the Drizzle variant (part_003: seed functions and data.ts queries),
    - the Prisma variant (part_004: data.ts queries; app/lib/db.ts: seed).
    The relational store is modelled by its table contents; an ORDER BY is
    modelled by the order the store chooses, constrained only by the sort key
    (SQL gives no order among rows with equal keys). *)

From Stdlib Require Import String Ascii List ZArith QArith Bool Lia.
From Stdlib Require Import Permutation Sorted Qround.
From Stdlib Require DecimalString DecimalZ DecimalPos.
Import ListNotations.
Open Scope string_scope.
Open Scope Z_scope.
Open Scope list_scope.

(** ** Rows of the four tables (schema.ts) *)

Record user := mkUser {
  u_id : string; u_name : string; u_email : string; u_password : string }.

Record customer := mkCustomer {
  c_id : string; c_name : string; c_email : string; c_imageUrl : string }.

(** [date] columns are compared as calendar days; a day number stands for
    the [YYYY-MM-DD] value. *)
Record invoice := mkInvoice {
  i_id : string; i_customerId : string; i_amount : Z; i_status : string;
  i_date : Z }.

Record revenue_row := mkRevenue { r_month : string; r_revenue : Z }.

Record db := mkDb {
  t_users : list user; t_customers : list customer;
  t_invoices : list invoice; t_revenue : list revenue_row }.

(** ** JavaScript values used by the code *)

(** A JS number as the code uses it: an integer or NaN. *)
Inductive jsnum := Num (z : Z) | NaN.

(** [a || b] on numbers: [a] unless [a] is falsy ([0] or [NaN]). *)
Definition js_or_num (a b : jsnum) : jsnum :=
  match a with Num z => if Z.eqb z 0 then b else a | NaN => b end.

(** [a ?? b]: [a] unless it is [null]. *)
Definition nullish {A} (a : option A) (b : A) : A :=
  match a with Some x => x | None => b end.

Definition is_digit (c : ascii) : bool :=
  let n := nat_of_ascii c in ((48 <=? n) && (n <=? 57))%nat.

Definition digit_value (radix : Z) (c : ascii) : option Z :=
  let n := Z.of_nat (nat_of_ascii c) in
  let d := if (48 <=? n)%Z && (n <=? 57)%Z then Some (n - 48)%Z
           else if (97 <=? n)%Z && (n <=? 122)%Z then Some (n - 87)%Z
           else if (65 <=? n)%Z && (n <=? 90)%Z then Some (n - 55)%Z
           else None in
  match d with Some v => if (v <? radix)%Z then Some v else None | None => None end.

(** StrWhiteSpaceChar restricted to ASCII: TAB, LF, VT, FF, CR, SPACE. *)
Definition is_js_space (c : ascii) : bool :=
  let n := nat_of_ascii c in (((9 <=? n) && (n <=? 13)) || (n =? 32))%nat.

Fixpoint trim_start (s : string) : string :=
  match s with
  | String c s' => if is_js_space c then trim_start s' else s
  | EmptyString => EmptyString
  end.

(** Longest prefix of radix digits, accumulated; [None] when there is none. *)
Fixpoint read_digits (radix : Z) (s : string) (acc : option Z) : option Z :=
  match s with
  | EmptyString => acc
  | String c s' =>
      match digit_value radix c with
      | Some d => read_digits radix s' (Some (nullish acc 0 * radix + d)%Z)
      | None => acc
      end
  end.

(** [parseInt(s)] with no radix (ECMA-262 21.1.2.13): skip leading white
    space, read an optional sign, a [0x]/[0X] prefix selects radix 16, then
    the longest digit prefix; [None] is [NaN].  Values are exact integers
    (the float rounding of very long digit strings is not modelled). *)
Definition read_sign (s : string) : Z * string :=
  match s with
  | String c r =>
      if Ascii.eqb c "-" then (-1, r) else if Ascii.eqb c "+" then (1, r) else (1, s)
  | EmptyString => (1, s)
  end.

Definition read_radix (s : string) : Z * string :=
  match s with
  | String c (String x r) =>
      if Ascii.eqb c "0" && (Ascii.eqb x "x" || Ascii.eqb x "X") then (16, r) else (10, s)
  | _ => (10, s)
  end.

Definition parseInt (s : string) : option Z :=
  let '(sign, s2) := read_sign (trim_start s) in
  let '(radix, s3) := read_radix s2 in
  match read_digits radix s3 None with
  | Some v => Some (sign * v)%Z
  | None => None
  end.

(** [isNaN(parseInt(q))] *)
Definition isNaN_parse (q : string) : bool :=
  match parseInt q with None => true | Some _ => false end.

(** ** SQL [LIKE] (PostgreSQL): [%] any sequence, [_] any character,
    backslash escapes the next pattern character. *)
Fixpoint like_match (p s : string) : bool :=
  match p with
  | EmptyString => match s with EmptyString => true | _ => false end
  | String c p' =>
      if Ascii.eqb c "%" then
        (fix go (s : string) : bool :=
           like_match p' s ||
           match s with EmptyString => false | String _ s' => go s' end) s
      else if Ascii.eqb c "_" then
        match s with EmptyString => false | String _ s' => like_match p' s' end
      else if Ascii.eqb c "\" then
        match p' with
        | String c' p'' =>
            match s with
            | String d s' => Ascii.eqb c' d && like_match p'' s'
            | EmptyString => false
            end
        (* PostgreSQL rejects a pattern ending in the escape character; the
           patterns built below always end in [%], so this is unreachable *)
        | EmptyString => false
        end
      else
        match s with
        | String d s' => Ascii.eqb c d && like_match p' s'
        | EmptyString => false
        end
  end.

(** [like(col, `%${query}%`)]; a NULL column (left join without a match)
    makes the SQL test NULL, which the WHERE clause treats as false. *)
Definition like_contains (query : string) (col : option string) : bool :=
  match col with
  | Some v => like_match ("%" ++ query ++ "%")%string v
  | None => false
  end.

(** Plain substring test, used to state what [LIKE '%q%'] computes. *)
Fixpoint contains (q s : string) : bool :=
  prefix q s || match s with EmptyString => false | String _ s' => contains q s' end.

(** ** The store connection and thrown errors *)

(** What a [catch] receives: an [Error] built by the code, or the failure
    of the driver (connectivity, constraint violation, timeout). *)
Inductive js_error := JsError (msg : string) | DbError (code : string).

(** The pooled handle; [conn_fault] is a failure every query hits. *)
Record conn := mkConn { conn_db : db; conn_fault : option string }.

Definition throw {A} (e : js_error) : js_error + A := inl e.
Definition ret {A} (a : A) : js_error + A := inr a.
Definition bindE {A B} (m : js_error + A) (k : A -> js_error + B) : js_error + B :=
  match m with inl e => inl e | inr a => k a end.
Notation "x <- m ;; k" := (bindE m (fun x => k))
  (at level 61, m at next level, right associativity).

(** [try { m } catch (error) { h(error) }] *)
Definition try_catch {A} (m : js_error + A) (h : js_error -> js_error + A)
  : js_error + A :=
  match m with inl e => h e | inr a => inr a end.

(** Awaiting one query on the handle. *)
Definition select {A} (c : conn) (q : db -> A) : js_error + A :=
  match conn_fault c with
  | Some code => throw (DbError code)
  | None => ret (q (conn_db c))
  end.

(** [.orderBy(...)]: the store returns the rows in an order of its choice
    that is sorted by the key; [arrange] is that choice for one query. *)
Definition orders_by {A} (R : A -> A -> Prop) (rows l : list A) : Prop :=
  Permutation l rows /\ Sorted R l.

(** ** [leftJoin(customers, eq(invoices.customerId, customers.id))] *)

Record joined := mkJoined { j_inv : invoice; j_cust : option customer }.

Definition leftJoin (d : db) : list joined :=
  flat_map (fun i =>
    match filter (fun c => String.eqb (c_id c) (i_customerId i)) (t_customers d) with
    | [] => [mkJoined i None]
    | cs => map (fun c => mkJoined i (Some c)) cs
    end) (t_invoices d).

Definition date_desc (a b : joined) : Prop := i_date (j_inv b) <= i_date (j_inv a).

Definition ITEMS_PER_PAGE : Z := 6.

(** The [integer] column [amount] is compared with a bound parameter, which
    PostgreSQL reads as an int4: a value out of range makes the query fail. *)
Definition int4_range (n : Z) : bool := (-2147483648 <=? n) && (n <=? 2147483647).

(** [searchCondition] of fetchFilteredInvoices / fetchInvoicesPages (both
    build the same expression): [or(...)] drops its [undefined] operand, so
    when [isNaN(queryAsNumber)] the amount clause is absent. *)
Definition searchCondition (query : string) (r : joined) : bool :=
  let queryAsNumber := parseInt query in
  like_contains query (option_map c_name (j_cust r)) ||
  like_contains query (option_map c_email (j_cust r)) ||
  like_contains query (Some (i_status (j_inv r))) ||
  match queryAsNumber with
  | None => false
  | Some n => Z.eqb (i_amount (j_inv r)) n
  end.

(** The amount parameter is sent only when [parseInt] gave a number. *)
Definition amount_param_ok (query : string) : bool :=
  match parseInt query with None => true | Some n => int4_range n end.

Record invoices_table_row := mkInvRow {
  ir_id : string; ir_amount : Z; ir_date : Z; ir_status : string;
  ir_name : option string; ir_email : option string; ir_image_url : option string }.

Definition transform_invoice (r : joined) : invoices_table_row :=
  mkInvRow (i_id (j_inv r)) (i_amount (j_inv r)) (i_date (j_inv r))
    (i_status (j_inv r)) (option_map c_name (j_cust r))
    (option_map c_email (j_cust r)) (option_map c_imageUrl (j_cust r)).

(** fetchFilteredInvoices (Drizzle, part_003).  A negative OFFSET is
    rejected by the store. *)
Definition fetchFilteredInvoices (arrange : list joined -> list joined)
    (c : conn) (query : string) (currentPage : Z)
    : js_error + list invoices_table_row :=
  let offset := (currentPage - 1) * ITEMS_PER_PAGE in
  try_catch
    (if negb (amount_param_ok query) then throw (DbError "22003") else
     if offset <? 0 then throw (DbError "2201X") else
     invoiceData <- select c (fun d =>
        firstn (Z.to_nat ITEMS_PER_PAGE) (skipn (Z.to_nat offset)
          (arrange (filter (searchCondition query) (leftJoin d)))));;
     ret (map transform_invoice invoiceData))
    (fun _ => throw (JsError "Failed to fetch invoices.")).

(** fetchInvoicesPages (Drizzle): [Math.ceil(count / ITEMS_PER_PAGE)]. *)
Definition fetchInvoicesPages (c : conn) (query : string) : js_error + Z :=
  try_catch
    (if negb (amount_param_ok query) then throw (DbError "22003") else
     count <- select c (fun d =>
        Z.of_nat (length (filter (searchCondition query) (leftJoin d))));;
     ret (Qceiling (inject_Z count / inject_Z ITEMS_PER_PAGE)))
    (fun _ => throw (JsError "Failed to fetch total number of invoices.")).

(** ** fetchInvoiceById *)

Record invoice_form := mkInvoiceForm {
  f_id : string; f_customer_id : string; f_amount : Q; f_status : string }.

(** [invoice.amount / 100]: JS division, modelled exactly in Q. *)
Definition to_form (inv : invoice) : invoice_form :=
  mkInvoiceForm (i_id inv) (i_customerId inv)
    (inject_Z (i_amount inv) / inject_Z 100) (i_status inv).

(** Drizzle: [.where(eq(invoices.id, id)).limit(1)]. *)
Definition fetchInvoiceById (c : conn) (id : string) : js_error + invoice_form :=
  try_catch
    (invoiceResult <- select c (fun d =>
        firstn 1 (filter (fun i => String.eqb (i_id i) id) (t_invoices d)));;
     match invoiceResult with
     | [] => throw (JsError "Invoice not found.")
     | invoice :: _ => ret (to_form invoice)
     end)
    (fun _ => throw (JsError "Failed to fetch invoice.")).

(** Prisma: [findUnique({ where: { id } })] yields the row or [null]. *)
Definition fetchInvoiceById_prisma (c : conn) (id : string)
    : js_error + invoice_form :=
  try_catch
    (invoice <- select c (fun d =>
        find (fun i => String.eqb (i_id i) id) (t_invoices d));;
     match invoice with
     | None => throw (JsError "Invoice not found.")
     | Some invoice => ret (to_form invoice)
     end)
    (fun _ => throw (JsError "Failed to fetch invoice.")).

(** ** Views that format amounts, fetchCardData, fetchFilteredCustomers *)

Definition lower_ascii (c : ascii) : ascii :=
  let n := nat_of_ascii c in
  if ((65 <=? n) && (n <=? 90))%nat then ascii_of_nat (n + 32) else c.

Fixpoint lower (s : string) : string :=
  match s with
  | EmptyString => EmptyString
  | String c s' => String (lower_ascii c) (lower s')
  end.

(** Prisma [{ contains: query, mode: 'insensitive' }]: ILIKE with the
    query's wildcards escaped, i.e. a substring test on lower-cased text. *)
Definition contains_insensitive (query s : string) : bool :=
  contains (lower query) (lower s).

(** Text of a [sum(...)] column as the driver returns it: [null] on an
    empty set, else the decimal text of the bigint. *)
Definition sum_text (amounts : list Z) : option string :=
  match amounts with
  | [] => None
  | _ => Some (DecimalString.NilZero.string_of_int (Z.to_int (fold_right Z.add 0 amounts)))
  end.

(** [Number(v)] on [null] or on the decimal integer texts of [sum_text]. *)
Definition Number_text (v : option string) : jsnum :=
  match v with
  | None => Num 0
  | Some s =>
      match DecimalString.NilZero.int_of_string s with
      | Some d => Num (Z.of_int d)
      | None => NaN
      end
  end.

Definition status_is (st : string) (i : invoice) : bool := String.eqb (i_status i) st.

Record card_data := mkCardData {
  numberOfCustomers : Z; numberOfInvoices : Z;
  totalPaidInvoices : string; totalPendingInvoices : string }.

Record latest_invoice := mkLatest {
  li_id : string; li_amount : string; li_name : option string;
  li_image_url : option string; li_email : option string }.

Record invoice_data := mkInvoiceData {
  d_customerId : string; d_amount : Z; d_status : string }.

Record customers_table_row := mkCustRow {
  ct_id : string; ct_name : string; ct_email : string; ct_image_url : string;
  ct_total_invoices : Z; ct_total_pending : string; ct_total_paid : string }.

(** [{ ...; [k]: InvoiceData[] }] as an association list; ids are uuids, so
    no key meets a property of [Object.prototype]. *)
Fixpoint lookup_group (k : string) (acc : list (string * list invoice_data))
  : option (list invoice_data) :=
  match acc with
  | [] => None
  | (k', v) :: acc' => if String.eqb k k' then Some v else lookup_group k acc'
  end.

Fixpoint set_group (k : string) (v : list invoice_data)
    (acc : list (string * list invoice_data)) : list (string * list invoice_data) :=
  match acc with
  | [] => [(k, v)]
  | (k', v') :: acc' =>
      if String.eqb k k' then (k', v) :: acc' else (k', v') :: set_group k v acc'
  end.

(** The reducer: [if (!acc[id]) acc[id] = []; acc[id].push(invoice)]. *)
Definition group_step (acc : list (string * list invoice_data)) (invoice : invoice_data)
  : list (string * list invoice_data) :=
  let cur := nullish (lookup_group (d_customerId invoice) acc) [] in
  set_group (d_customerId invoice) (cur ++ [invoice]) acc.

Definition sum_amounts (l : list invoice_data) : Z :=
  fold_left (fun sum invoice => sum + d_amount invoice) l 0.

Section Formatting.

(** [formatCurrency] of utils.ts (not part of the sources): any function of
    the number it is given. *)
Variable formatCurrency : jsnum -> string.

(** fetchLatestInvoices (Drizzle): latest 5 by date, amount formatted. *)
Definition fetchLatestInvoices (arrange : list joined -> list joined) (c : conn)
    : js_error + list latest_invoice :=
  try_catch
    (data <- select c (fun d => firstn 5 (arrange (leftJoin d)));;
     ret (map (fun r => mkLatest (i_id (j_inv r))
                 (formatCurrency (Num (i_amount (j_inv r))))
                 (option_map c_name (j_cust r)) (option_map c_imageUrl (j_cust r))
                 (option_map c_email (j_cust r))) data))
    (fun _ => throw (JsError "Failed to fetch the latest invoices.")).

(** fetchRevenue: every row as stored (the 3 s demo delay is not modelled). *)
Definition fetchRevenue (c : conn) : js_error + list revenue_row :=
  try_catch (select c t_revenue)
    (fun _ => throw (JsError "Failed to fetch revenue data.")).

(** fetchCardData (Drizzle): [Number(total) || 0]. *)
Definition fetchCardData (c : conn) : js_error + card_data :=
  try_catch
    (invoiceCountResult <- select c (fun d => Z.of_nat (length (t_invoices d)));;
     customerCountResult <- select c (fun d => Z.of_nat (length (t_customers d)));;
     paidInvoicesResult <- select c (fun d =>
        sum_text (map i_amount (filter (status_is "paid") (t_invoices d))));;
     pendingInvoicesResult <- select c (fun d =>
        sum_text (map i_amount (filter (status_is "pending") (t_invoices d))));;
     ret (mkCardData customerCountResult invoiceCountResult
            (formatCurrency (js_or_num (Number_text paidInvoicesResult) (Num 0)))
            (formatCurrency (js_or_num (Number_text pendingInvoicesResult) (Num 0)))))
    (fun _ => throw (JsError "Failed to fetch card data.")).

(** [_sum.amount] of a Prisma aggregate: [null] on an empty set. *)
Definition prisma_sum (amounts : list Z) : option Z :=
  match amounts with [] => None | _ => Some (fold_right Z.add 0 amounts) end.

(** fetchCardData (Prisma): [_sum?.amount ?? 0]. *)
Definition fetchCardData_prisma (c : conn) : js_error + card_data :=
  try_catch
    (numberOfInvoices <- select c (fun d => Z.of_nat (length (t_invoices d)));;
     numberOfCustomers <- select c (fun d => Z.of_nat (length (t_customers d)));;
     paidResult <- select c (fun d =>
        prisma_sum (map i_amount (filter (status_is "paid") (t_invoices d))));;
     pendingResult <- select c (fun d =>
        prisma_sum (map i_amount (filter (status_is "pending") (t_invoices d))));;
     ret (mkCardData numberOfCustomers numberOfInvoices
            (formatCurrency (Num (nullish paidResult 0)))
            (formatCurrency (Num (nullish pendingResult 0)))))
    (fun _ => throw (JsError "Failed to fetch card data.")).

Definition customer_row (customer : customer) (customerInvoices : list invoice_data)
  : customers_table_row :=
  let totalInvoices := Z.of_nat (length customerInvoices) in
  let totalPending := sum_amounts
        (filter (fun invoice => String.eqb (d_status invoice) "pending") customerInvoices) in
  let totalPaid := sum_amounts
        (filter (fun invoice => String.eqb (d_status invoice) "paid") customerInvoices) in
  mkCustRow (c_id customer) (c_name customer) (c_email customer) (c_imageUrl customer)
    totalInvoices (formatCurrency (Num totalPending)) (formatCurrency (Num totalPaid)).

Definition customer_match (query : string) (cu : customer) : bool :=
  like_contains query (Some (c_name cu)) || like_contains query (Some (c_email cu)).

Definition to_invoice_data (i : invoice) : invoice_data :=
  mkInvoiceData (i_customerId i) (i_amount i) (i_status i).

(** fetchFilteredCustomers (Drizzle): customers ordered by name (the store's
    [arrange_c]), one batch of their invoices (in the store's order
    [arrange_i]), grouped in memory. *)
Definition fetchFilteredCustomers (arrange_c : list customer -> list customer)
    (arrange_i : list invoice_data -> list invoice_data) (c : conn) (query : string)
    : js_error + list customers_table_row :=
  try_catch
    (customersData <- select c (fun d =>
        arrange_c (filter (customer_match query) (t_customers d)));;
     let customerIds := map c_id customersData in
     invoicesData <-
       (if (0 <? length customerIds)%nat then
          select c (fun d => arrange_i (map to_invoice_data
            (filter (fun i => existsb (String.eqb (i_customerId i)) customerIds)
               (t_invoices d))))
        else ret []);;
     let invoicesByCustomer := fold_left group_step invoicesData [] in
     ret (map (fun customer =>
            customer_row customer
              (nullish (lookup_group (c_id customer) invoicesByCustomer) []))
          customersData))
    (fun _ => throw (JsError "Failed to fetch customer table.")).

(** fetchFilteredCustomers (Prisma): the [invoices] relation of each customer
    is included by the store, in its order [arrange_i]. *)
Definition fetchFilteredCustomers_prisma (arrange_c : list customer -> list customer)
    (arrange_i : list invoice_data -> list invoice_data) (c : conn) (query : string)
    : js_error + list customers_table_row :=
  try_catch
    (customers <- select c (fun d =>
        map (fun cu => (cu, arrange_i (map to_invoice_data
               (filter (fun i => String.eqb (i_customerId i) (c_id cu)) (t_invoices d)))))
          (arrange_c (filter (fun cu => contains_insensitive query (c_name cu) ||
                                        contains_insensitive query (c_email cu))
                        (t_customers d))));;
     ret (map (fun p => customer_row (fst p) (snd p)) customers))
    (fun _ => throw (JsError "Failed to fetch customer table.")).

End Formatting.

(** ** Issuance of the sub-queries of fetchCardData

    ORM query builders are lazy thenables: a query is sent when a [.then] is
    first attached.  [Promise.all] attaches one to each of its arguments at
    once; a callback passed to [.then] runs only after its promise is
    settled, so a query created and awaited inside it is sent after that. *)

Inductive card_query := InvoiceCount | CustomerCount | PaidSum | PendingSum.

#[warnings="-register-all"]
Inductive prom :=
  | PQuery (q : card_query)          (* one ORM query *)
  | PThen (p : prom) (k : prom)      (* p.then(async () => { await k; ... }) *)
  | PAll (ps : list prom).           (* Promise.all([...]) *)

Fixpoint queries_of (p : prom) : list card_query :=
  match p with
  | PQuery q => [q]
  | PThen p1 k => queries_of p1 ++ queries_of k
  | PAll ps => (fix go ps := match ps with [] => [] | p :: ps' => queries_of p ++ go ps' end) ps
  end.

(** For each query, the queries whose completion its issuance waits for. *)
Fixpoint issue_deps (pre : list card_query) (p : prom) : list (card_query * list card_query) :=
  match p with
  | PQuery q => [(q, pre)]
  | PThen p1 k => issue_deps pre p1 ++ issue_deps (pre ++ queries_of p1) k
  | PAll ps =>
      (fix go ps := match ps with [] => [] | p :: ps' => issue_deps pre p ++ go ps' end) ps
  end.

(** Drizzle (part_003): the four builders are handed to [Promise.all]. *)
Definition fetchCardData_plan : prom :=
  PAll [PQuery InvoiceCount; PQuery CustomerCount; PQuery PaidSum; PQuery PendingSum].

(** Prisma (part_004): the pending aggregate is created and awaited inside
    the [.then] callback of the paid aggregate. *)
Definition fetchCardData_prisma_plan : prom :=
  PAll [PQuery InvoiceCount; PQuery CustomerCount; PThen (PQuery PaidSum) (PQuery PendingSum)].

(** ** Seeding (the Drizzle seed of part_003, which app/seed/route.ts
    imports).  Only the orchestration of seedDatabase is shared with the
    Prisma seed of app/lib/db.ts ([seedDatabase_with]); the Prisma stages
    ([upsert], [createMany]) are not modelled. *)

Inductive stage := SUsers | SCustomers | SRevenue | SInvoices.

(** The [console] lines of the seed, as far as they show progress. *)
Inductive logmsg :=
  | LStart | LSeeding (s : stage) | LSeeded (s : stage) (n : nat)
  | LSkip (n : nat) | LDone | LError.

(** Placeholder invoices carry no id: the store generates it.  [is_date]
    is the day its date text denotes (the placeholder dates are valid). *)
Record invoice_seed := mkInvoiceSeed {
  is_customer_id : string; is_amount : Z; is_status : string; is_date : Z }.

Record placeholder := mkPlaceholder {
  ph_users : list user; ph_customers : list customer;
  ph_invoices : list invoice_seed; ph_revenue : list revenue_row }.

(** The store, the log, the counter for store-generated ids, and a
    failure every query meets ([Some code]: the connection or the server
    fails with that code), as [conn_fault] for the reads. *)
Record st := mkSt { s_db : db; s_log : list logmsg; s_fresh : nat; s_fault : option string }.

(** State and exceptions; the effects done before a throw stay. *)
Definition SM (A : Type) := st -> st * (js_error + A).

Definition sret {A} (a : A) : SM A := fun s => (s, inr a).
Definition sthrow {A} (e : js_error) : SM A := fun s => (s, inl e).
Definition sbind {A B} (m : SM A) (k : A -> SM B) : SM B :=
  fun s => let '(s1, r) := m s in
           match r with inl e => (s1, inl e) | inr a => k a s1 end.
Notation "'let*' x ':=' m 'in' k" := (sbind m (fun x => k))
  (at level 200, x name, m at level 100, k at level 200).

Definition stry {A} (m : SM A) (h : js_error -> SM A) : SM A :=
  fun s => let '(s1, r) := m s in
           match r with inl e => h e s1 | inr a => (s1, inr a) end.

Definition slog (m : logmsg) : SM unit :=
  fun s => (mkSt (s_db s) (s_log s ++ [m]) (s_fresh s) (s_fault s), inr tt).

(** One query on the store; [q] may refuse its parameters. *)
Definition sselect {A} (q : db -> js_error + A) : SM A := fun s =>
  match s_fault s with
  | Some code => (s, inl (DbError code))
  | None => (s, q (s_db s))
  end.

Definition squery {A} (q : db -> A) : SM A := sselect (fun d => inr (q d)).

Definition set_db (s : st) (d : db) : st := mkSt d (s_log s) (s_fresh s) (s_fault s).

(** ** Column types of schema.ts *)

Definition is_hex (c : ascii) : bool :=
  let n := nat_of_ascii c in
  (((48 <=? n) && (n <=? 57)) || ((65 <=? n) && (n <=? 70)) || ((97 <=? n) && (n <=? 102)))%nat.

(** [string_to_uuid] of PostgreSQL (utils/adt/uuid.c): the hex pairs
    [i .. 15], one optional '-' after each odd pair but the last; the
    digits read and the text left. *)
Fixpoint uuid_pairs (i k : nat) (s : string) : option (string * string) :=
  match k with
  | O => Some (EmptyString, s)
  | S k' =>
      match s with
      | String a (String b rest) =>
          if is_hex a && is_hex b then
            let rest' := match rest with
                         | String c r =>
                             if Ascii.eqb c "-"%char && Nat.odd i && (i <? 15)%nat
                             then r else rest
                         | EmptyString => rest
                         end in
            match uuid_pairs (S i) k' rest' with
            | Some (ds, tail) => Some (String a (String b ds), tail)
            | None => None
            end
          else None
      | _ => None
      end
  end.

(** The value of a uuid text (its 32 digits in lower case), with the
    optional braces; [None]: invalid input syntax for type uuid. *)
Definition uuid_digits (s : string) : option string :=
  match s with
  | String c src =>
      if Ascii.eqb c "{"%char then
        match uuid_pairs 0 16 src with
        | Some (ds, tail) => if String.eqb tail "}" then Some (lower ds) else None
        | None => None
        end
      else
        match uuid_pairs 0 16 s with
        | Some (ds, tail) => if String.eqb tail EmptyString then Some (lower ds) else None
        | None => None
        end
  | EmptyString => None
  end.

Definition uuid_ok (s : string) : bool :=
  match uuid_digits s with Some _ => true | None => false end.

(** Equality of two [uuid] values. *)
Definition uuid_eqb (a b : string) : bool :=
  match uuid_digits a, uuid_digits b with
  | Some x, Some y => String.eqb x y
  | _, _ => false
  end.

(** [varchar(n)] (the texts are ASCII: a character is a byte). *)
Definition varchar_ok (n : nat) (v : string) : bool := (String.length v <=? n)%nat.

(** The first failing check of a row, in the order PostgreSQL meets them:
    the parameters are read first ([uuid]: 22P02, [integer] out of range:
    22003), then the row is formed ([varchar(n)] too long: 22001). *)
Fixpoint column_error (checks : list (bool * string)) : option string :=
  match checks with
  | [] => None
  | (ok, code) :: cs => if ok then column_error cs else Some code
  end.

Definition user_columns (u : user) : list (bool * string) :=
  [(uuid_ok (u_id u), "22P02"); (varchar_ok 255 (u_name u), "22001")].

Definition customer_columns (c : customer) : list (bool * string) :=
  [(uuid_ok (c_id c), "22P02"); (varchar_ok 255 (c_name c), "22001");
   (varchar_ok 255 (c_email c), "22001"); (varchar_ok 255 (c_imageUrl c), "22001")].

Definition revenue_columns (r : revenue_row) : list (bool * string) :=
  [(int4_range (r_revenue r), "22003"); (varchar_ok 4 (r_month r), "22001")].

Definition invoice_param_columns (r : invoice_seed) : list (bool * string) :=
  [(uuid_ok (is_customer_id r), "22P02"); (int4_range (is_amount r), "22003")].

Definition invoice_row_columns (r : invoice_seed) : list (bool * string) :=
  [(varchar_ok 255 (is_status r), "22001")].

(** INSERT ... RETURNING of one row, with the column types and the
    constraints of schema.ts: [users.id] primary key and [users.email]
    unique, [customers.id] primary key, [revenue.month] unique (23505). *)
Definition insert_user (u : user) : SM (list user) := fun s =>
  let d := s_db s in
  match s_fault s with
  | Some code => (s, inl (DbError code))
  | None =>
    match column_error (user_columns u) with
    | Some code => (s, inl (DbError code))
    | None =>
      if existsb (fun v => uuid_eqb (u_id v) (u_id u) || String.eqb (u_email v) (u_email u))
           (t_users d)
      then (s, inl (DbError "23505"))
      else (set_db s (mkDb (t_users d ++ [u]) (t_customers d) (t_invoices d) (t_revenue d)),
            inr [u])
    end
  end.

Definition insert_customer (c : customer) : SM (list customer) := fun s =>
  let d := s_db s in
  match s_fault s with
  | Some code => (s, inl (DbError code))
  | None =>
    match column_error (customer_columns c) with
    | Some code => (s, inl (DbError code))
    | None =>
      if existsb (fun v => uuid_eqb (c_id v) (c_id c)) (t_customers d)
      then (s, inl (DbError "23505"))
      else (set_db s (mkDb (t_users d) (t_customers d ++ [c]) (t_invoices d) (t_revenue d)),
            inr [c])
    end
  end.

Definition insert_revenue (r : revenue_row) : SM (list revenue_row) := fun s =>
  let d := s_db s in
  match s_fault s with
  | Some code => (s, inl (DbError code))
  | None =>
    match column_error (revenue_columns r) with
    | Some code => (s, inl (DbError code))
    | None =>
      if existsb (fun v => String.eqb (r_month v) (r_month r)) (t_revenue d)
      then (s, inl (DbError "23505"))
      else (set_db s (mkDb (t_users d) (t_customers d) (t_invoices d) (t_revenue d ++ [r])),
            inr [r])
    end
  end.

(** Store-generated ids ([uuid_generate_v4()]), distinct per counter value. *)
Fixpoint uuid_of (n : nat) : string :=
  match n with O => "u" | S k => String "x" (uuid_of k) end.

Fixpoint with_ids (n : nat) (rows : list invoice_seed) : list invoice :=
  match rows with
  | [] => []
  | r :: rows' =>
      mkInvoice (uuid_of n) (is_customer_id r) (is_amount r) (is_status r) (is_date r)
        :: with_ids (S n) rows'
  end.

(** One multi-row INSERT (Drizzle [insert(invoicesTable).values(rows)]):
    Drizzle refuses an empty [values([])] before sending anything; then
    the parameters of all rows are read, each row is formed, and the
    foreign key [customer_id] -> [customers.id] is checked (23503); all
    rows or none. *)
Definition insert_invoices (rows : list invoice_seed) : SM (list invoice) := fun s =>
  let d := s_db s in
  match rows with
  | [] => (s, inl (JsError "values() must be called with at least one value"))
  | _ =>
    match s_fault s with
    | Some code => (s, inl (DbError code))
    | None =>
      match column_error (flat_map invoice_param_columns rows ++
                          flat_map invoice_row_columns rows) with
      | Some code => (s, inl (DbError code))
      | None =>
        if forallb (fun r => existsb (fun c => uuid_eqb (c_id c) (is_customer_id r))
                               (t_customers d)) rows
        then let ins := with_ids (s_fresh s) rows in
             (mkSt (mkDb (t_users d) (t_customers d) (t_invoices d ++ ins) (t_revenue d))
                   (s_log s) (s_fresh s + length rows) (s_fault s), inr ins)
        else (s, inl (DbError "23503"))
      end
    end
  end.

(** ** [Promise.all(records.map(async (r) => { ... }))] of the stages

    Each callback makes at most two queries: the existence check
    ([select ... where key = r.key limit 1]) and, when that found no row,
    the insert.  The callbacks run concurrently: a schedule lists whose
    query the store serves next; after it, the callbacks still running
    take their remaining steps.  [Promise.all] rejects with the error of
    the callback that fails first; the other callbacks still run to their
    end (their inserts happen), which the model lets finish before the
    rejection reaches the caller. *)

(** Where a callback is: before its check, before its insert, done, failed. *)
Inductive phase := PCheck | PInsert | PDone | PFailed (e : js_error).

Fixpoint replace_nth {A} (i : nat) (x : A) (l : list A) : list A :=
  match l, i with
  | [], _ => []
  | _ :: l', O => x :: l'
  | y :: l', S i' => y :: replace_nth i' x l'
  end.

Section PromiseAll.

Context {A : Type}.
(** The existence check of a callback: is the record's row there? *)
Variable check : A -> SM bool.
(** The insert of a callback. *)
Variable insert : A -> SM unit.

(** The next query of the callback of [a]. *)
Definition step (a : A) (ph : phase) (s : st) : st * phase :=
  match ph with
  | PCheck =>
      let '(s1, r) := check a s in
      match r with
      | inl e => (s1, PFailed e)
      | inr true => (s1, PDone)
      | inr false => (s1, PInsert)
      end
  | PInsert =>
      let '(s1, r) := insert a s in
      match r with inl e => (s1, PFailed e) | inr _ => (s1, PDone) end
  | _ => (s, ph)
  end.

(** The first rejection is kept. *)
Definition first_failure (err : option js_error) (ph ph1 : phase) : option js_error :=
  match err, ph, ph1 with
  | Some e, _, _ => Some e
  | None, PFailed _, _ => None
  | None, _, PFailed e => Some e
  | None, _, _ => None
  end.

Fixpoint run_pool (xs : list A) (sched : list nat) (ps : list phase) (err : option js_error)
    (s : st) : st * list phase * option js_error :=
  match sched with
  | [] => (s, ps, err)
  | i :: sched' =>
      match nth_error xs i, nth_error ps i with
      | Some a, Some ph =>
          let '(s1, ph1) := step a ph s in
          run_pool xs sched' (replace_nth i ph1 ps) (first_failure err ph ph1) s1
      | _, _ => run_pool xs sched' ps err s
      end
  end.

(** Every callback takes its remaining steps, in list order. *)
Definition drain (n : nat) : list nat := flat_map (fun i => [i; i]) (seq 0 n).

Definition promise_all (sched : list nat) (xs : list A) : SM (list unit) := fun s =>
  let '(s1, _, err) :=
      run_pool xs (sched ++ drain (length xs)) (repeat PCheck (length xs)) None s in
  match err with
  | Some e => (s1, inl e)
  | None => (s1, inr (repeat tt (length xs)))
  end.

End PromiseAll.

(** The order the store serves the queries of each stage's callbacks in. *)
Record schedules := mkSchedules {
  sc_users : list nat; sc_customers : list nat; sc_revenue : list nat }.

(** The body of seedDatabase, the same in both seeds: the four stages
    awaited in order inside one try/catch that logs and rethrows. *)
Definition seedDatabase_with (run : stage -> SM unit) : SM unit :=
  stry
    (let* _ := slog LStart in
     let* _ := run SUsers in
     let* _ := run SCustomers in
     let* _ := run SRevenue in
     let* _ := run SInvoices in
     slog LDone)
    (fun error => let* _ := slog LError in sthrow error).

Fixpoint run_stages (run : stage -> SM unit) (xs : list stage) : SM unit :=
  match xs with
  | [] => sret tt
  | x :: xs' => let* _ := run x in run_stages run xs'
  end.

Definition stage_order : list stage := [SUsers; SCustomers; SRevenue; SInvoices].

Section Seed.

Variable P : placeholder.
(** [bcrypt.hash(password, 10)]; it queries nothing, so the model computes
    it with the insert. *)
Variable bcrypt_hash : string -> string.

(** [db.select().from(usersTable).where(eq(usersTable.id, user.id)).limit(1)]
    and [existingUser.length !== 0]. *)
Definition user_check (user : user) : SM bool :=
  sselect (fun d =>
    if uuid_ok (u_id user) then
      let existingUser := firstn 1 (filter (fun u => uuid_eqb (u_id u) (u_id user)) (t_users d)) in
      inr (negb (length existingUser =? 0)%nat)
    else inl (DbError "22P02")).

Definition user_insert (user : user) : SM unit :=
  let hashedPassword := bcrypt_hash (u_password user) in
  let* _ := insert_user (mkUser (u_id user) (u_name user) (u_email user) hashedPassword) in
  sret tt.

Definition seedUsers (sched : list nat) : SM nat :=
  let* _ := slog (LSeeding SUsers) in
  let* insertedUsers := promise_all user_check user_insert sched (ph_users P) in
  let* _ := slog (LSeeded SUsers (length insertedUsers)) in
  sret (length insertedUsers).

Definition customer_check (customer : customer) : SM bool :=
  sselect (fun d =>
    if uuid_ok (c_id customer) then
      let existingCustomer :=
        firstn 1 (filter (fun c => uuid_eqb (c_id c) (c_id customer)) (t_customers d)) in
      inr (negb (length existingCustomer =? 0)%nat)
    else inl (DbError "22P02")).

Definition customer_insert (customer : customer) : SM unit :=
  let* _ := insert_customer customer in sret tt.

Definition seedCustomers (sched : list nat) : SM nat :=
  let* _ := slog (LSeeding SCustomers) in
  let* insertedCustomers := promise_all customer_check customer_insert sched (ph_customers P) in
  let* _ := slog (LSeeded SCustomers (length insertedCustomers)) in
  sret (length insertedCustomers).

Definition seedInvoices : SM (list invoice) :=
  let* _ := slog (LSeeding SInvoices) in
  let* existingInvoicesCount := squery (fun d => length (t_invoices d)) in
  if (0 <? existingInvoicesCount)%nat then
    let* _ := slog (LSkip existingInvoicesCount) in sret []
  else
    let* insertedInvoices := insert_invoices (ph_invoices P) in
    let* _ := slog (LSeeded SInvoices (length insertedInvoices)) in
    sret insertedInvoices.

(** [eq(revenueTable.month, rev.month)] compares texts. *)
Definition revenue_check (rev : revenue_row) : SM bool :=
  squery (fun d =>
    let existingRevenue := firstn 1 (filter (fun r => String.eqb (r_month r) (r_month rev)) (t_revenue d)) in
    negb (length existingRevenue =? 0)%nat).

Definition revenue_insert (rev : revenue_row) : SM unit :=
  let* _ := insert_revenue rev in sret tt.

Definition seedRevenue (sched : list nat) : SM nat :=
  let* _ := slog (LSeeding SRevenue) in
  let* insertedRevenue := promise_all revenue_check revenue_insert sched (ph_revenue P) in
  let* _ := slog (LSeeded SRevenue (length insertedRevenue)) in
  sret (length insertedRevenue).

(** A stage awaited for its effect only ([await seedUsers();]). *)
Definition run_stage (sch : schedules) (x : stage) : SM unit :=
  match x with
  | SUsers => let* _ := seedUsers (sc_users sch) in sret tt
  | SCustomers => let* _ := seedCustomers (sc_customers sch) in sret tt
  | SRevenue => let* _ := seedRevenue (sc_revenue sch) in sret tt
  | SInvoices => let* _ := seedInvoices in sret tt
  end.

Definition seedDatabase (sch : schedules) : SM unit := seedDatabase_with (run_stage sch).

End Seed.

(** ** The search predicate in the spec's words (for comparison) *)

Fixpoint all_digits (s : string) : bool :=
  match s with EmptyString => true | String c s' => is_digit c && all_digits s' end.

Fixpoint decimal_acc (s : string) (acc : Z) : Z :=
  match s with
  | EmptyString => acc
  | String c s' => decimal_acc s' (acc * 10 + (Z.of_nat (nat_of_ascii c) - 48))
  end.

(** "[query] parses cleanly as an integer": an optional sign and at least
    one decimal digit, nothing else. *)
Definition clean_integer (q : string) : option Z :=
  let '(sign, body) := read_sign q in
  match body with
  | EmptyString => None
  | _ => if all_digits body then Some (sign * decimal_acc body 0) else None
  end.

(** The match rule as the spec states it: a case-insensitive substring of
    name, email or status, or [amount] equal to the cleanly parsed query. *)
Definition spec_invoice_match (q : string) (r : joined) : bool :=
  match j_cust r with
  | Some cu => contains_insensitive q (c_name cu) || contains_insensitive q (c_email cu)
  | None => false
  end ||
  contains_insensitive q (i_status (j_inv r)) ||
  match clean_integer q with
  | Some n => Z.eqb (i_amount (j_inv r)) n
  | None => false
  end.

(** No LIKE metacharacter in the query. *)
Fixpoint no_like_meta (q : string) : bool :=
  match q with
  | EmptyString => true
  | String c q' =>
      negb (Ascii.eqb c "%" || Ascii.eqb c "_" || Ascii.eqb c "\") && no_like_meta q'
  end.

(** ** Pages of fetchFilteredInvoices *)

(** Date-descending order on the returned rows. *)
Definition row_date_desc (a b : invoices_table_row) : Prop := ir_date b <= ir_date a.

Definition ids_disjoint (xs ys : list string) : Prop := forall x, In x xs -> ~ In x ys.

(** The claim that pages 1 and 2 never share an invoice id, whatever
    date-descending order each of the two queries gets from the store. *)
Definition pages_disjoint_claim : Prop :=
  forall (a1 a2 : list joined -> list joined) (c : conn) (q : string)
         (p1 p2 : list invoices_table_row),
  let rows := filter (searchCondition q) (leftJoin (conn_db c)) in
  orders_by date_desc rows (a1 rows) -> orders_by date_desc rows (a2 rows) ->
  fetchFilteredInvoices a1 c q 1 = inr p1 -> fetchFilteredInvoices a2 c q 2 = inr p2 ->
  ids_disjoint (map ir_id p1) (map ir_id p2).

(** Seven invoices of one customer, all dated the same day. *)
Definition cust_c6 : customer := mkCustomer "c1" "Ann" "ann@x.com" "/a.png".
Definition ids_c6 : list string := ["i1"; "i2"; "i3"; "i4"; "i5"; "i6"; "i7"].
Definition invs_c6 : list invoice := map (fun s => mkInvoice s "c1" 100 "paid" 5) ids_c6.
Definition conn_c6 : conn := mkConn (mkDb [] [cust_c6] invs_c6 []) None.
Definition row_c6 (s : string) : invoices_table_row :=
  transform_invoice (mkJoined (mkInvoice s "c1" 100 "paid" 5) (Some cust_c6)).

(** Seven invoices of one customer on seven different days, stored oldest
    first. *)
Definition invs_x6 : list invoice :=
  [mkInvoice "i1" "c1" 100 "paid" 1; mkInvoice "i2" "c1" 200 "paid" 2;
   mkInvoice "i3" "c1" 300 "pending" 3; mkInvoice "i4" "c1" 400 "paid" 4;
   mkInvoice "i5" "c1" 500 "pending" 5; mkInvoice "i6" "c1" 600 "paid" 6;
   mkInvoice "i7" "c1" 700 "pending" 7].
Definition conn_x6 : conn := mkConn (mkDb [] [cust_c6] invs_x6 []) None.

(** Another order of rows that are tied on the sort key. *)
Definition rotate {A} (l : list A) : list A :=
  match l with [] => [] | x :: l' => l' ++ [x] end.

(** ** The customer table in the spec's words (for comparison) *)

(** The invoice rows whose [customer_id] is [id]. *)
Definition cust_invs (d : db) (id : string) : list invoice :=
  filter (fun i => String.eqb (i_customerId i) id) (t_invoices d).

(** Sum in cents of the amounts of the rows with status [st]. *)
Definition status_sum (st : string) (l : list invoice) : Z :=
  fold_right Z.add 0 (map i_amount (filter (fun i => String.eqb (i_status i) st) l)).

Definition expected_row (formatCurrency : jsnum -> string) (d : db) (cu : customer)
  : customers_table_row :=
  mkCustRow (c_id cu) (c_name cu) (c_email cu) (c_imageUrl cu)
    (Z.of_nat (length (cust_invs d (c_id cu))))
    (formatCurrency (Num (status_sum "pending" (cust_invs d (c_id cu)))))
    (formatCurrency (Num (status_sum "paid" (cust_invs d (c_id cu))))).

(** ** What a seed stage leaves in the store *)

(** [d'] extends every table of [d] (the seed only inserts). *)
Definition db_le (d d' : db) : Prop :=
  (exists a, t_users d' = t_users d ++ a) /\ (exists b, t_customers d' = t_customers d ++ b) /\
  (exists c, t_invoices d' = t_invoices d ++ c) /\ (exists r, t_revenue d' = t_revenue d ++ r).

(** A row with the record's key is stored (the key compared as the
    existence check compares it). *)
Definition user_present (u : user) (d : db) : bool :=
  existsb (fun v => uuid_eqb (u_id v) (u_id u)) (t_users d).
Definition customer_present (cu : customer) (d : db) : bool :=
  existsb (fun v => uuid_eqb (c_id v) (c_id cu)) (t_customers d).
Definition revenue_present (r : revenue_row) (d : db) : bool :=
  existsb (fun v => String.eqb (r_month v) (r_month r)) (t_revenue d).

(** The rows a finished stage guarantees. *)
Definition stage_done (P : placeholder) (x : stage) (d : db) : Prop :=
  match x with
  | SUsers => Forall (fun u => user_present u d = true) (ph_users P)
  | SCustomers => Forall (fun cu => customer_present cu d = true) (ph_customers P)
  | SRevenue => Forall (fun r => revenue_present r d = true) (ph_revenue P)
  | SInvoices => (0 < length (t_invoices d))%nat
  end.

(** ** Small stores used in the statements and examples *)

Definition db_c1 : db :=
  mkDb [] [mkCustomer "c1" "Delba" "delba@x.com" "/d.png"]
    [mkInvoice "i1" "c1" 1000 "paid" 5] [].

Definition conn_c1 : conn := mkConn db_c1 None.

(** No invoice of the store has status [st]. *)
Definition no_invoice_with_status (st : string) (d : db) : Prop :=
  Forall (fun i => i_status i <> st) (t_invoices d).

Definition cust_c3 : customer := mkCustomer "c1" "Ann" "ann@x.com" "/a.png".
Definition inv_c3 : invoice := mkInvoice "i1" "c1" 12 "paid" 5.
Definition conn_c3 : conn := mkConn (mkDb [] [cust_c3] [inv_c3] []) None.

(** ** fetchCustomers and the seeding route *)

(** The [{ id, name }] rows of fetchCustomers. *)
Record customer_field := mkCustomerField { cf_id : string; cf_name : string }.

(** fetchCustomers: Drizzle [.select({ id, name }).from(customers)
    .orderBy(customers.name)], and Prisma [findMany({ select: { id, name },
    orderBy: { name: 'asc' } })], which both send this query. *)
Definition fetchCustomers (arrange : list customer_field -> list customer_field)
    (c : conn) : js_error + list customer_field :=
  try_catch
    (customersData <- select c (fun d =>
        arrange (map (fun cu => mkCustomerField (c_id cu) (c_name cu)) (t_customers d)));;
     ret customersData)
    (fun _ => throw (JsError "Failed to fetch all customers.")).

(** The JSON bodies the route answers with. *)
Inductive json_body := JMessage (message : string) | JError (error : string).

Record response := mkResponse { res_status : Z; res_body : json_body }.

(** [GET] of app/seed/route.ts ([Response.json] answers 200 unless told
    otherwise; the [console.error] line is not modelled). *)
Definition GET (P : placeholder) (bcrypt_hash : string -> string) (sch : schedules) :
    SM response :=
  stry
    (let* _ := seedDatabase P bcrypt_hash sch in
     sret (mkResponse 200 (JMessage "Database seeded successfully")))
    (fun error => sret (mkResponse 500 (JError "Failed to seed database"))).

(** A user row as seedUsers inserts it: the password replaced by its hash. *)
Definition hashed_user (bcrypt_hash : string -> string) (u : user) : user :=
  mkUser (u_id u) (u_name u) (u_email u) (bcrypt_hash (u_password u)).

Definition empty_db : db := mkDb [] [] [] [].

(** The row [id] of a view shows, as [name], [email] and [img], the customer
    its invoice references. *)
Definition row_has_customer (d : db) (id : string) (name email img : option string) : Prop :=
  exists i cu, In i (t_invoices d) /\ In cu (t_customers d) /\
    i_id i = id /\ i_customerId i = c_id cu /\
    name = Some (c_name cu) /\ email = Some (c_email cu) /\ img = Some (c_imageUrl cu).

(** Every invoice references a stored customer (the foreign key). *)
Definition invoices_reference_customers (d : db) : Prop :=
  forall i, In i (t_invoices d) -> exists cu, In cu (t_customers d) /\ c_id cu = i_customerId i.

(** [d'] holds the users of [d] followed by rows that are hashed
    placeholder users. *)
Definition users_added (P : placeholder) (bcrypt_hash : string -> string) (d d' : db) : Prop :=
  exists a, t_users d' = t_users d ++ a /\
    Forall (fun v => exists u, In u (ph_users P) /\ v = hashed_user bcrypt_hash u) a.

(** A callback that has finished, with or without a failure. *)
Definition terminal (ph : phase) : Prop :=
  match ph with PDone | PFailed _ => True | _ => False end.

(** What one seed step may do to the state: extend the tables, add
    hashed placeholder users, and keep the failure mode. *)
Definition seed_step (P : placeholder) (bcrypt_hash : string -> string) (s s' : st) : Prop :=
  db_le (s_db s) (s_db s') /\ s_fault s' = s_fault s /\
  users_added P bcrypt_hash (s_db s) (s_db s').

(** Placeholder data in the shape of placeholder-data.ts. *)
Definition uid1 : string := "410544b2-4001-4271-9855-fec4b6a6442a".
Definition uid2 : string := "3958dc9e-712f-4377-85e9-fec4b6a6442a".
Definition cid1 : string := "d6e15727-9fe1-4961-8c5b-ea44a9bd81aa".

Definition user1 : user := mkUser uid1 "User" "user@nextmail.com" "123456".
Definition customer1 : customer :=
  mkCustomer cid1 "Evil Rabbit" "evil@rabbit.com" "/customers/evil-rabbit.png".
Definition invoice1 : invoice_seed := mkInvoiceSeed cid1 15795 "pending" 8.
Definition revenue1 : revenue_row := mkRevenue "Jan" 2000.

Definition ph_ok : placeholder := mkPlaceholder [user1] [customer1] [invoice1] [revenue1].
(** The same user listed twice. *)
Definition ph_dup_id : placeholder :=
  mkPlaceholder [user1; user1] [customer1] [invoice1] [revenue1].
(** Two users sharing an email. *)
Definition ph_dup_email : placeholder :=
  mkPlaceholder [user1; mkUser uid2 "Other" "user@nextmail.com" "654321"]
    [customer1] [invoice1] [revenue1].

Definition hash_ex (p : string) : string := String "$"%char p.
Definition seed_empty : st := mkSt empty_db [] 0 None.
(** Each callback's queries one after the other. *)
Definition sch_seq : schedules := mkSchedules [] [] [].
(** Both users' existence checks before their inserts. *)
Definition sch_race : schedules := mkSchedules [0%nat; 1%nat; 0%nat; 1%nat] [] [].

(** * Properties *)

(** ** Evaluation checks of the string helpers *)

Example parseInt_ex1 : parseInt "12abc" = Some 12%Z. Proof. reflexivity. Qed.
Example parseInt_ex2 : parseInt "  -0x1A" = Some (-26)%Z. Proof. reflexivity. Qed.
Example parseInt_ex3 : parseInt "Delba" = None. Proof. reflexivity. Qed.
Example parseInt_ex4 : parseInt "" = None. Proof. reflexivity. Qed.
Example like_ex1 : like_contains "el" (Some "Delba") = true. Proof. reflexivity. Qed.
Example like_ex2 : like_contains "EL" (Some "Delba") = false. Proof. reflexivity. Qed.
Example like_ex3 : like_contains "%" (Some "abc") = true. Proof. reflexivity. Qed.

(** ** fetchInvoiceById: errors *)

(** C1 (evaluated): on a store without the id ["i9"], and on a store whose
    connection fails, both variants of fetchInvoiceById throw the same
    [Error('Failed to fetch invoice.')]: the catch block replaces the
    ['Invoice not found.'] error thrown inside the try block. *)
Theorem fetchInvoiceById_not_found_masked :
  fetchInvoiceById (mkConn db_c1 None) "i9" = inl (JsError "Failed to fetch invoice.") /\
  fetchInvoiceById (mkConn db_c1 (Some "08006")) "i9" =
    inl (JsError "Failed to fetch invoice.") /\
  fetchInvoiceById_prisma (mkConn db_c1 None) "i9" =
    inl (JsError "Failed to fetch invoice.") /\
  fetchInvoiceById_prisma (mkConn db_c1 (Some "08006")) "i9" =
    inl (JsError "Failed to fetch invoice.").
Proof. repeat split; reflexivity. Qed.

(** The same holds for any store: a missing id and a store failure give
    one and the same thrown value. *)
Lemma fetchInvoiceById_no_row_same_error (d : db) (id code : string) :
  Forall (fun i => i_id i <> id) (t_invoices d) ->
  fetchInvoiceById (mkConn d None) id = fetchInvoiceById (mkConn d (Some code)) id /\
  fetchInvoiceById_prisma (mkConn d None) id =
    fetchInvoiceById_prisma (mkConn d (Some code)) id.
Proof.
  intros H. unfold fetchInvoiceById, fetchInvoiceById_prisma; cbn.
  assert (Hf : filter (fun i => String.eqb (i_id i) id) (t_invoices d) = [] /\
               find (fun i => String.eqb (i_id i) id) (t_invoices d) = None).
  { induction H as [|x l Hx _ IH]; cbn; [split; reflexivity|].
    destruct (String.eqb_spec (i_id x) id); [contradiction | exact IH]. }
  destruct Hf as [Hf Hn].
  rewrite Hf, Hn. split; reflexivity.
Qed.

(** ** fetchCardData: issuance of the sub-queries *)

(** In the Drizzle variant no sub-query waits for another to complete. *)
Lemma fetchCardData_plan_fan_out :
  issue_deps [] fetchCardData_plan =
    [(InvoiceCount, []); (CustomerCount, []); (PaidSum, []); (PendingSum, [])].
Proof. reflexivity. Qed.

(** C2 (evaluated): in the Prisma variant the pending-sum query is issued
    only once the paid-sum query has completed. *)
Theorem fetchCardData_prisma_pending_after_paid :
  In (PendingSum, [PaidSum]) (issue_deps [] fetchCardData_prisma_plan) /\
  issue_deps [] fetchCardData_prisma_plan =
    [(InvoiceCount, []); (CustomerCount, []); (PaidSum, []); (PendingSum, [PaidSum])].
Proof. split; [cbn; tauto | reflexivity]. Qed.

(** ** fetchInvoicesPages *)

Lemma Qceiling_div6 (n : Z) : Qceiling (inject_Z n / inject_Z 6) = (n + 5) / 6.
Proof.
  unfold Qceiling, Qfloor, inject_Z, Qdiv, Qinv, Qmult, Qopp; cbn.
  rewrite Z.mul_1_r.
  pose proof (Z.div_mod (- n) 6 ltac:(lia)) as E1.
  pose proof (Z.mod_pos_bound (- n) 6 ltac:(lia)) as B1.
  pose proof (Z.div_mod (n + 5) 6 ltac:(lia)) as E2.
  pose proof (Z.mod_pos_bound (n + 5) 6 ltac:(lia)) as B2.
  lia.
Qed.

Lemma length_firstn_skipn_nil {A} (k m : nat) (l : list A) :
  (length l <= k)%nat -> firstn m (skipn k l) = [].
Proof.
  intros H. assert (E : length (skipn k l) = 0%nat) by (rewrite length_skipn; lia).
  apply length_zero_iff_nil in E. rewrite E. destruct m; reflexivity.
Qed.

Lemma firstn_skipn_not_nil {A} (k m : nat) (l : list A) :
  (k < length l)%nat -> (0 < m)%nat -> firstn m (skipn k l) <> [].
Proof.
  intros H Hm E. apply (f_equal (@length A)) in E.
  rewrite length_firstn, length_skipn in E. cbn in E. lia.
Qed.

(** Success of fetchFilteredInvoices: one window of the ordered rows. *)
Lemma fetchFilteredInvoices_ok (arrange : list joined -> list joined) (c : conn)
    (q : string) (page : Z) :
  conn_fault c = None -> amount_param_ok q = true -> 0 <= (page - 1) * ITEMS_PER_PAGE ->
  fetchFilteredInvoices arrange c q page =
    inr (map transform_invoice
          (firstn (Z.to_nat ITEMS_PER_PAGE) (skipn (Z.to_nat ((page - 1) * ITEMS_PER_PAGE))
            (arrange (filter (searchCondition q) (leftJoin (conn_db c))))))).
Proof.
  intros Hc Hq Hoff. unfold fetchFilteredInvoices, select. rewrite Hc, Hq.
  replace ((page - 1) * ITEMS_PER_PAGE <? 0) with false by (symmetry; apply Z.ltb_ge; lia).
  reflexivity.
Qed.

(** And conversely: an answer of fetchFilteredInvoices is such a window. *)
Lemma fetchFilteredInvoices_inv (arrange : list joined -> list joined) (c : conn)
    (q : string) (page : Z) (rows : list invoices_table_row) :
  fetchFilteredInvoices arrange c q page = inr rows ->
  conn_fault c = None /\ amount_param_ok q = true /\ (0 <= (page - 1) * ITEMS_PER_PAGE) /\
  rows = map transform_invoice
          (firstn (Z.to_nat ITEMS_PER_PAGE) (skipn (Z.to_nat ((page - 1) * ITEMS_PER_PAGE))
            (arrange (filter (searchCondition q) (leftJoin (conn_db c)))))).
Proof.
  unfold fetchFilteredInvoices, select. intros H.
  destruct (amount_param_ok q); [|discriminate].
  destruct ((page - 1) * ITEMS_PER_PAGE <? 0) eqn:Ho; [discriminate|].
  destruct (conn_fault c); [discriminate|].
  unfold try_catch, bindE, ret in H; cbv beta iota in H.
  apply Z.ltb_ge in Ho. injection H as <-. repeat split; auto.
Qed.

(** C5: when fetchInvoicesPages answers [p], [p] is the ceiling of
    [n / 6] for the number [n] of joined rows satisfying [searchCondition],
    the predicate fetchFilteredInvoices filters with; so
    [(p - 1) * 6 < n <= p * 6].  Consistently, for any order the store
    picks, page [p] of fetchFilteredInvoices is non-empty when [n > 0] and
    page [p + 1] is empty. *)
Theorem fetchInvoicesPages_ceiling (c : conn) (q : string) (p : Z) :
  fetchInvoicesPages c q = inr p ->
  let rows := filter (searchCondition q) (leftJoin (conn_db c)) in
  let n := Z.of_nat (length rows) in
  p = (n + 5) / 6 /\ n <= p * ITEMS_PER_PAGE /\ (p - 1) * ITEMS_PER_PAGE < n /\
  (forall arrange, Permutation (arrange rows) rows ->
     (0 < n -> fetchFilteredInvoices arrange c q p <> inr []) /\
     fetchFilteredInvoices arrange c q (p + 1) = inr []).
Proof.
  intros H. unfold fetchInvoicesPages in H.
  set (rows := filter (searchCondition q) (leftJoin (conn_db c))).
  set (n := Z.of_nat (length rows)).
  destruct (amount_param_ok q) eqn:Hq; [|discriminate].
  unfold select in H. destruct (conn_fault c) eqn:Hc; [discriminate|].
  cbn in H. injection H as <-. rewrite Qceiling_div6. fold rows n.
  pose proof (Z.div_mod (n + 5) 6 ltac:(lia)) as E.
  pose proof (Z.mod_pos_bound (n + 5) 6 ltac:(lia)) as B.
  assert (Hn : 0 <= n) by (unfold n; lia).
  split; [reflexivity|]. unfold ITEMS_PER_PAGE at 1 2. split; [lia|]. split; [lia|].
  intros arrange Hp.
  assert (Hl : length (arrange rows) = length rows) by apply (Permutation_length Hp).
  split.
  - intros Hpos. rewrite fetchFilteredInvoices_ok by (auto; unfold ITEMS_PER_PAGE; lia).
    fold rows. intros E'.
    assert (E2 : firstn (Z.to_nat ITEMS_PER_PAGE)
                   (skipn (Z.to_nat (((n + 5) / 6 - 1) * ITEMS_PER_PAGE)) (arrange rows))
                 = []) by (apply (map_eq_nil transform_invoice); congruence).
    refine (firstn_skipn_not_nil _ _ _ _ _ E2); [|cbn; lia].
    rewrite Hl. unfold n in *. unfold ITEMS_PER_PAGE. lia.
  - rewrite fetchFilteredInvoices_ok by (auto; unfold ITEMS_PER_PAGE; lia).
    fold rows. rewrite length_firstn_skipn_nil; [reflexivity|].
    rewrite Hl. unfold n in *. unfold ITEMS_PER_PAGE. lia.
Qed.

Lemma fetchInvoicesPages_ceiling_witness :
  fetchInvoicesPages conn_c1 "" = inr 1 /\
  (1 = (1 + 5) / 6 /\ 1 <= 1 * ITEMS_PER_PAGE /\ (1 - 1) * ITEMS_PER_PAGE < 1).
Proof.
  split; [reflexivity|].
  pose proof (fetchInvoicesPages_ceiling conn_c1 "" 1 eq_refl) as H.
  cbn zeta in H. destruct H as (H1 & H2 & H3 & _). exact (conj H1 (conj H2 H3)).
Defined.

(** ** fetchCardData: empty sums *)

Lemma filter_none {A} (f : A -> bool) (l : list A) :
  Forall (fun x => f x = false) l -> filter f l = [].
Proof. induction 1 as [|x l Hx _ IH]; cbn; [reflexivity|]. now rewrite Hx. Qed.

Lemma no_status_filter (st : string) (d : db) :
  no_invoice_with_status st d -> filter (status_is st) (t_invoices d) = [].
Proof.
  intros H. apply filter_none. eapply Forall_impl; [|exact H].
  intros i Hi. unfold status_is. now apply String.eqb_neq.
Qed.

(** C10: when the store answers, both variants of fetchCardData return a
    value; with no [paid] invoice the paid total is [formatCurrency(0)]
    (the [null] sum becomes [0], not NaN), and likewise for [pending]. *)
Theorem fetchCardData_empty_sum_zero (formatCurrency : jsnum -> string) (c : conn) :
  conn_fault c = None ->
  (exists r, fetchCardData formatCurrency c = inr r /\
     (no_invoice_with_status "paid" (conn_db c) -> totalPaidInvoices r = formatCurrency (Num 0)) /\
     (no_invoice_with_status "pending" (conn_db c) ->
        totalPendingInvoices r = formatCurrency (Num 0))) /\
  (exists r, fetchCardData_prisma formatCurrency c = inr r /\
     (no_invoice_with_status "paid" (conn_db c) -> totalPaidInvoices r = formatCurrency (Num 0)) /\
     (no_invoice_with_status "pending" (conn_db c) ->
        totalPendingInvoices r = formatCurrency (Num 0))).
Proof.
  intros Hc. unfold fetchCardData, fetchCardData_prisma, select. rewrite Hc. cbn.
  split; eexists; (split; [reflexivity|]);
    split; intros H; cbn; rewrite (no_status_filter _ _ H); reflexivity.
Qed.

Lemma fetchCardData_empty_sum_zero_witness :
  exists r, fetchCardData (fun _ => "") conn_c1 = inr r /\
    totalPendingInvoices r = "".
Proof.
  destruct (fetchCardData_empty_sum_zero (fun _ => "") conn_c1 eq_refl)
    as [[r [Hr [_ Hp]]] _].
  exists r. split; [exact Hr|]. apply Hp.
  unfold no_invoice_with_status. cbn. repeat constructor. discriminate.
Defined.

(** ** Units of the amounts returned by the read operations *)

Lemma Number_text_sum_text (l : list Z) :
  js_or_num (Number_text (sum_text l)) (Num 0) = Num (fold_right Z.add 0 l).
Proof.
  destruct l as [|z l]; [reflexivity|].
  unfold sum_text, Number_text.
  set (t := fold_right Z.add 0 (z :: l)).
  rewrite DecimalString.NilZero.isi.
  - rewrite DecimalZ.of_to. cbn [js_or_num].
    destruct (Z.eqb_spec t 0) as [E|]; [rewrite E; reflexivity | reflexivity].
  - destruct t; cbn; try discriminate.
    intros [=E]. exact (DecimalPos.Unsigned.to_uint_nonnil _ E).
  - destruct t; cbn; try discriminate.
    intros [=E]. exact (DecimalPos.Unsigned.to_uint_nonnil _ E).
Qed.

Lemma in_firstn {A} (n : nat) (l : list A) (x : A) : In x (firstn n l) -> In x l.
Proof. intros H. rewrite <- (firstn_skipn n l). apply in_or_app. now left. Qed.

Lemma in_skipn {A} (n : nat) (l : list A) (x : A) : In x (skipn n l) -> In x l.
Proof. intros H. rewrite <- (firstn_skipn n l). apply in_or_app. now right. Qed.

Lemma in_leftJoin_inv (d : db) (r : joined) :
  In r (leftJoin d) -> In (j_inv r) (t_invoices d).
Proof.
  unfold leftJoin. intros H. apply in_flat_map in H as [i [Hi Hr]].
  destruct (filter _ (t_customers d)) as [|cu cs].
  - destruct Hr as [<-|[]]. exact Hi.
  - apply in_map_iff in Hr as [cu' [<- _]]. exact Hi.
Qed.

Lemma find_unique_id (l : list invoice) (inv : invoice) :
  NoDup (map i_id l) -> In inv l ->
  find (fun i => String.eqb (i_id i) (i_id inv)) l = Some inv /\
  filter (fun i => String.eqb (i_id i) (i_id inv)) l = [inv].
Proof.
  induction l as [|x l IH]; cbn; [tauto|].
  intros Hnd Hin. inversion Hnd as [|? ? Hnx Hnd']; subst.
  destruct Hin as [<-|Hin].
  - rewrite String.eqb_refl. split; [reflexivity|]. f_equal.
    apply filter_none. apply Forall_forall. intros y Hy.
    apply String.eqb_neq. intros E. apply Hnx. rewrite <- E. now apply in_map.
  - destruct (String.eqb_spec (i_id x) (i_id inv)) as [E|_].
    + exfalso. apply Hnx. rewrite E. now apply in_map.
    + now apply IH.
Qed.

(** ** The search predicate of fetchFilteredInvoices *)

Lemma like_match_pct_cons (p s : string) :
  like_match (String "%" p) s =
    like_match p s || match s with EmptyString => false | String _ s' => like_match (String "%" p) s' end.
Proof. destruct s; reflexivity. Qed.

Lemma like_match_pct (s : string) : like_match "%" s = true.
Proof.
  induction s as [|a s IH]; [reflexivity|].
  rewrite like_match_pct_cons, IH. apply orb_true_r.
Qed.

Lemma like_match_literal (q s : string) :
  no_like_meta q = true -> like_match (q ++ "%")%string s = prefix q s.
Proof.
  revert s. induction q as [|a q IH]; intros s Hq.
  - cbn [append]. rewrite like_match_pct. destruct s; reflexivity.
  - cbn in Hq. apply andb_prop in Hq as [Ha Hq].
    apply negb_true_iff, orb_false_elim in Ha as [Ha H3].
    apply orb_false_elim in Ha as [H1 H2].
    cbn [append like_match]. rewrite H1, H2, H3.
    destruct s as [|b s]; [reflexivity|]. cbn [prefix].
    destruct (Ascii.eqb_spec a b) as [<-|Hab].
    + destruct (ascii_dec a a) as [_|]; [|contradiction]. cbn. now apply IH.
    + destruct (ascii_dec a b); [contradiction|reflexivity].
Qed.

(** [LIKE '%q%'] is the substring test when [q] has no metacharacter. *)
Lemma like_contains_substring (q s : string) :
  no_like_meta q = true -> like_contains q (Some s) = contains q s.
Proof.
  intros Hq. unfold like_contains. cbn [append].
  induction s as [|a s IH].
  - rewrite like_match_pct_cons, (like_match_literal _ _ Hq). reflexivity.
  - rewrite like_match_pct_cons, (like_match_literal _ _ Hq), IH. reflexivity.
Qed.

Lemma is_digit_range (c : ascii) :
  is_digit c = true -> (48 <= nat_of_ascii c <= 57)%nat.
Proof.
  unfold is_digit. intros H. apply andb_prop in H as [H1 H2].
  apply Nat.leb_le in H1, H2. lia.
Qed.

Lemma digit_not (c d : ascii) :
  is_digit c = true -> (nat_of_ascii d < 48 \/ 57 < nat_of_ascii d)%nat -> Ascii.eqb c d = false.
Proof.
  intros Hc Hd. apply is_digit_range in Hc.
  destruct (Ascii.eqb_spec c d) as [<-|]; [lia|reflexivity].
Qed.

Lemma digit_value_10 (c : ascii) :
  is_digit c = true -> digit_value 10 c = Some (Z.of_nat (nat_of_ascii c) - 48).
Proof.
  intros H. apply is_digit_range in H. unfold digit_value.
  replace ((48 <=? Z.of_nat (nat_of_ascii c)) && (Z.of_nat (nat_of_ascii c) <=? 57)) with true
    by (symmetry; apply andb_true_intro; split; apply Z.leb_le; lia).
  replace (Z.of_nat (nat_of_ascii c) - 48 <? 10) with true by (symmetry; apply Z.ltb_lt; lia).
  reflexivity.
Qed.

Lemma read_digits_all (s : string) (acc : Z) :
  all_digits s = true -> read_digits 10 s (Some acc) = Some (decimal_acc s acc).
Proof.
  revert acc. induction s as [|c s IH]; intros acc H; [reflexivity|].
  cbn in H. apply andb_prop in H as [Hc H].
  cbn [read_digits decimal_acc]. rewrite (digit_value_10 _ Hc). cbn [nullish].
  now apply IH.
Qed.

Lemma is_digit_not_space (c : ascii) : is_digit c = true -> is_js_space c = false.
Proof.
  intros H. apply is_digit_range in H. unfold is_js_space. cbv zeta.
  destruct (Nat.leb_spec 9 (nat_of_ascii c)), (Nat.leb_spec (nat_of_ascii c) 13),
    (Nat.eqb_spec (nat_of_ascii c) 32); cbn; try reflexivity; lia.
Qed.

(** A cleanly written integer is read by [parseInt] with its value. *)
Lemma parseInt_clean (q : string) (n : Z) : clean_integer q = Some n -> parseInt q = Some n.
Proof.
  unfold clean_integer, parseInt.
  assert (Hbody : forall body sign, body <> EmptyString -> all_digits body = true ->
            (let '(radix, s3) := read_radix body in
             match read_digits radix s3 None with
             | Some v => Some (sign * v) | None => None end) = Some (sign * decimal_acc body 0)).
  { intros [|c s] sign Hne Hd; [contradiction|].
    cbn in Hd. apply andb_prop in Hd as [Hc Hd].
    assert (Hr : read_radix (String c s) = (10, String c s)).
    { destruct s as [|x r]; [reflexivity|]. cbn in Hd. apply andb_prop in Hd as [Hx _].
      cbn [read_radix].
      rewrite (digit_not x "x" Hx ltac:(cbn; lia)), (digit_not x "X" Hx ltac:(cbn; lia)).
      rewrite andb_false_r. reflexivity. }
    rewrite Hr. cbn [read_digits]. rewrite (digit_value_10 _ Hc). cbn [nullish].
    rewrite read_digits_all by exact Hd. reflexivity. }
  destruct q as [|c r]; [discriminate|].
  cbn [read_sign].
  destruct (Ascii.eqb_spec c "-") as [->|Hm]; [|destruct (Ascii.eqb_spec c "+") as [->|Hp]].
  - destruct r as [|d r']; [discriminate|].
    destruct (all_digits (String d r')) eqn:Hd; [|discriminate]. intros [= <-].
    cbn [trim_start]. replace (is_js_space "-") with false by reflexivity.
    cbn [read_sign Ascii.eqb]. apply Hbody; [discriminate | exact Hd].
  - destruct r as [|d r']; [discriminate|].
    destruct (all_digits (String d r')) eqn:Hd; [|discriminate]. intros [= <-].
    cbn [trim_start]. replace (is_js_space "+") with false by reflexivity.
    cbn [read_sign Ascii.eqb]. apply Hbody; [discriminate | exact Hd].
  - destruct (all_digits (String c r)) eqn:Hd; [|discriminate]. intros [= <-].
    assert (Hc : is_digit c = true) by (cbn in Hd; apply andb_prop in Hd; tauto).
    cbn [trim_start]. rewrite (is_digit_not_space _ Hc). cbn [read_sign].
    apply Ascii.eqb_neq in Hm, Hp. rewrite Hm, Hp.
    apply Hbody; [discriminate | exact Hd].
Qed.

(** C3 (code bug, Drizzle variant).  The search of part_003 tests
    [like(column, '%query%')], which is case-sensitive: for a query
    without [%], [_] or [\] it is the case-sensitive substring test.  The
    query "ANN" is a case-insensitive substring of the name "Ann", yet
    fetchFilteredInvoices returns nothing.  The amount clause uses
    [parseInt(query)], which reads the leading digits of "12abc" although
    that query is not a clean integer and no substring of the row's texts,
    so the invoice of amount 12 is returned. *)
Theorem fetchFilteredInvoices_search_case_sensitive :
  (forall q, no_like_meta q = true -> forall s, like_contains q (Some s) = contains q s) /\
  spec_invoice_match "ANN" (mkJoined inv_c3 (Some cust_c3)) = true /\
  fetchFilteredInvoices (fun l => l) conn_c3 "ANN" 1 = inr [] /\
  spec_invoice_match "12abc" (mkJoined inv_c3 (Some cust_c3)) = false /\
  fetchFilteredInvoices (fun l => l) conn_c3 "12abc" 1 =
    inr [mkInvRow "i1" 12 5 "paid" (Some "Ann") (Some "ann@x.com") (Some "/a.png")].
Proof.
  split; [intros q Hq s; now apply like_contains_substring|].
  repeat split; reflexivity.
Qed.

(** ** Pages of fetchFilteredInvoices *)

Lemma NoDup_app_disjoint {A} (l1 l2 : list A) (x : A) :
  NoDup (l1 ++ l2) -> In x l1 -> ~ In x l2.
Proof.
  induction l1 as [|a l1 IH]; intros H Hx; [destruct Hx|].
  inversion H as [|? ? Hn Hd]; subst. destruct Hx as [<-|Hx].
  - intros H2. apply Hn, in_or_app. now right.
  - now apply IH.
Qed.

Lemma firstn_app_skipn {A} (n m : nat) (l : list A) :
  firstn n l ++ firstn m (skipn n l) = firstn (n + m) l.
Proof.
  revert l. induction n as [|n IH]; intros [|a l]; cbn; auto.
  - now rewrite firstn_nil.
  - now rewrite IH.
Qed.

Lemma Sorted_skipn {A} (R : A -> A -> Prop) (n : nat) (l : list A) :
  Sorted R l -> Sorted R (skipn n l).
Proof.
  revert l. induction n as [|n IH]; intros [|a l] H; cbn; auto.
  apply IH. now apply Sorted_inv in H.
Qed.

Lemma HdRel_firstn {A} (R : A -> A -> Prop) (a : A) (n : nat) (l : list A) :
  HdRel R a l -> HdRel R a (firstn n l).
Proof.
  intros H. destruct n, l; cbn; auto. inversion H; subst. now constructor.
Qed.

Lemma Sorted_firstn {A} (R : A -> A -> Prop) (n : nat) (l : list A) :
  Sorted R l -> Sorted R (firstn n l).
Proof.
  revert l. induction n as [|n IH]; intros [|a l] H; cbn; auto.
  apply Sorted_inv in H as [H1 H2]. constructor; [now apply IH | now apply HdRel_firstn].
Qed.

Lemma Sorted_transform (l : list joined) :
  Sorted date_desc l -> Sorted row_date_desc (map transform_invoice l).
Proof.
  induction 1 as [|a l H IH Hh]; cbn; constructor; auto.
  destruct Hh; cbn; constructor. exact H0.
Qed.

Lemma date_desc_trans : forall a b c : joined, date_desc a b -> date_desc b c -> date_desc a c.
Proof. unfold date_desc. intros. lia. Qed.

(** Two date-descending orders of the same rows agree when no two rows
    share a date. *)
Lemma sorted_perm_unique (l1 l2 : list joined) :
  Sorted date_desc l1 -> Sorted date_desc l2 -> Permutation l1 l2 ->
  NoDup (map (fun r => i_date (j_inv r)) l1) -> l1 = l2.
Proof.
  intros H1 H2. apply Sorted_StronglySorted in H1; [|exact date_desc_trans].
  apply Sorted_StronglySorted in H2; [|exact date_desc_trans].
  revert l2 H2. induction H1 as [|a l1 H1 IH Ha]; intros l2 H2 Hp Hn.
  - symmetry. now apply Permutation_nil.
  - destruct l2 as [|b l2]; [apply Permutation_sym, Permutation_nil in Hp; discriminate|].
    inversion H2 as [|? ? H2' Hb]; subst.
    cbn in Hn. inversion Hn as [|? ? Hna Hn']; subst.
    assert (Hab : a = b).
    { assert (Hb1 : In b (a :: l1)) by (apply (Permutation_in _ (Permutation_sym Hp)); now left).
      assert (Ha2 : In a (b :: l2)) by (apply (Permutation_in _ Hp); now left).
      destruct Hb1 as [|Hb1]; [auto|]. destruct Ha2 as [<-|Ha2]; [reflexivity|].
      rewrite Forall_forall in Ha, Hb. specialize (Ha _ Hb1). specialize (Hb _ Ha2).
      unfold date_desc in Ha, Hb. exfalso. apply Hna.
      replace (i_date (j_inv a)) with (i_date (j_inv b)) by lia.
      now apply (in_map (fun r => i_date (j_inv r))). }
    subst b. f_equal. apply IH; auto. now apply Permutation_cons_inv in Hp.
Qed.

Lemma rows_c6_eq :
  filter (searchCondition "") (leftJoin (conn_db conn_c6)) =
    map (fun i => mkJoined i (Some cust_c6)) invs_c6.
Proof. reflexivity. Qed.

Lemma rows_c6_sorted : Sorted date_desc (map (fun i => mkJoined i (Some cust_c6)) invs_c6).
Proof. cbn. repeat constructor; unfold date_desc; cbn; lia. Qed.

(** C6 (counterexample).  Seven invoices dated the same day and the
    empty query: the first query gets them in table order, the second in a
    rotated order (both are sorted by date descending); page 1 and page 2
    both hold "i1". *)
Lemma pages_disjoint_counterexample : ~ pages_disjoint_claim.
Proof.
  unfold pages_disjoint_claim. intros H.
  refine (H (fun l => l) rotate conn_c6 ""
            (map row_c6 (firstn 6 ids_c6)) [row_c6 "i1"] _ _ _ _ "i1" _ _);
    cbv zeta; try rewrite rows_c6_eq.
  - split; [apply Permutation_refl | apply rows_c6_sorted].
  - split.
    + cbn. apply Permutation_sym, Permutation_cons_append.
    + cbn. repeat constructor; unfold date_desc; cbn; lia.
  - reflexivity.
  - reflexivity.
  - cbn. now left.
  - cbn. now left.
Qed.

(** Each answer of fetchFilteredInvoices has at most 6 rows, ordered by
    date descending, when the store orders the rows by date. *)
Lemma fetchFilteredInvoices_page_shape (a : list joined -> list joined) (c : conn)
    (q : string) (page : Z) (p : list invoices_table_row) :
  let rows := filter (searchCondition q) (leftJoin (conn_db c)) in
  orders_by date_desc rows (a rows) -> fetchFilteredInvoices a c q page = inr p ->
  (length p <= 6)%nat /\ Sorted row_date_desc p.
Proof.
  intros rows [_ Hs] H. apply fetchFilteredInvoices_inv in H as (_ & _ & _ & ->).
  split.
  - rewrite length_map, length_firstn. cbn. lia.
  - apply Sorted_transform, Sorted_firstn, Sorted_skipn, Hs.
Qed.

(** C6 (amended).  Every page (any page number, any order the store
    picks among rows of equal date) has at most 6 rows, ordered by date
    descending; so do the two pages [p1] and [p2].  When the two queries
    get the same order from the store, or when no two matching rows share
    a date, pages 1 and 2 together are the first 12 rows of the ordered
    result, and with distinct invoice ids they share no id. *)
Theorem fetchFilteredInvoices_pages (a1 a2 : list joined -> list joined) (c : conn)
    (q : string) (p1 p2 : list invoices_table_row) :
  let rows := filter (searchCondition q) (leftJoin (conn_db c)) in
  orders_by date_desc rows (a1 rows) -> orders_by date_desc rows (a2 rows) ->
  fetchFilteredInvoices a1 c q 1 = inr p1 -> fetchFilteredInvoices a2 c q 2 = inr p2 ->
  (forall a page p, orders_by date_desc rows (a rows) ->
     fetchFilteredInvoices a c q page = inr p ->
     (length p <= 6)%nat /\ Sorted row_date_desc p) /\
  ((length p1 <= 6)%nat /\ Sorted row_date_desc p1 /\
   (length p2 <= 6)%nat /\ Sorted row_date_desc p2) /\
  (a2 rows = a1 rows \/ NoDup (map (fun r => i_date (j_inv r)) rows) ->
   p1 ++ p2 = map transform_invoice (firstn 12 (a1 rows)) /\
   (NoDup (map (fun r => i_id (j_inv r)) rows) -> ids_disjoint (map ir_id p1) (map ir_id p2))).
Proof.
  intros rows Ho1 Ho2 H1 H2.
  pose proof (fetchFilteredInvoices_page_shape a1 c q 1 p1 Ho1 H1) as [L1 S1].
  pose proof (fetchFilteredInvoices_page_shape a2 c q 2 p2 Ho2 H2) as [L2 S2].
  split; [intros a page p Ho H; exact (fetchFilteredInvoices_page_shape a c q page p Ho H)|].
  split; [auto|]. intros Hsame.
  assert (Ea : a2 rows = a1 rows).
  { destruct Hsame as [E|Hd]; [exact E|].
    destruct Ho1 as [P1 T1], Ho2 as [P2 T2].
    apply sorted_perm_unique; auto.
    - now rewrite P1.
    - rewrite P2. exact Hd. }
  apply fetchFilteredInvoices_inv in H1 as (_ & _ & _ & ->).
  apply fetchFilteredInvoices_inv in H2 as (_ & _ & _ & ->).
  fold rows. rewrite Ea.
  change (Z.to_nat ITEMS_PER_PAGE) with 6%nat.
  change (Z.to_nat ((2 - 1) * ITEMS_PER_PAGE)) with 6%nat.
  change (Z.to_nat ((1 - 1) * ITEMS_PER_PAGE)) with 0%nat. cbn [skipn].
  split.
  - rewrite <- map_app. f_equal. apply (firstn_app_skipn 6 6).
  - intros Hid x Hx Hy. rewrite map_map in Hx, Hy.
    apply in_map_iff in Hx as (r1 & E1 & Hr1). apply in_map_iff in Hy as (r2 & E2 & Hr2).
    assert (Hn : NoDup (map (fun r => i_id (j_inv r)) (a1 rows))).
    { destruct Ho1 as [P1 _]. apply (Permutation_NoDup (Permutation_map _ (Permutation_sym P1))), Hid. }
    rewrite <- (firstn_skipn 6 (a1 rows)), map_app in Hn.
    apply (NoDup_app_disjoint _ _ x Hn).
    + rewrite <- E1. exact (in_map (fun r => i_id (j_inv r)) _ _ Hr1).
    + rewrite <- E2. exact (in_map (fun r => i_id (j_inv r)) _ _ (in_firstn _ _ _ Hr2)).
Qed.

Lemma fetchFilteredInvoices_pages_witness :
  (map row_c6 (firstn 6 ids_c6)) ++ [row_c6 "i7"] =
    map transform_invoice (firstn 12 (map (fun i => mkJoined i (Some cust_c6)) invs_c6)).
Proof.
  rewrite <- rows_c6_eq.
  refine (proj1 (proj2 (proj2 (fetchFilteredInvoices_pages (fun l => l) (fun l => l) conn_c6 ""
             (map row_c6 (firstn 6 ids_c6)) [row_c6 "i7"] _ _ _ _)) _)).
  - cbv zeta. rewrite rows_c6_eq. split; [apply Permutation_refl | apply rows_c6_sorted].
  - cbv zeta. rewrite rows_c6_eq. split; [apply Permutation_refl | apply rows_c6_sorted].
  - reflexivity.
  - reflexivity.
  - left. reflexivity.
Defined.

(** ** fetchFilteredCustomers *)

Lemma like_match_pct_pct (s : string) : like_match "%%" s = true.
Proof.
  induction s as [|a s IH]; [reflexivity|].
  rewrite like_match_pct_cons, like_match_pct. reflexivity.
Qed.

Lemma customer_match_empty (cu : customer) : customer_match "" cu = true.
Proof. unfold customer_match, like_contains. cbn [append]. now rewrite like_match_pct_pct. Qed.

(** What the reducer collects under a key. *)
Lemma lookup_set_group (k k' : string) (v : list invoice_data) acc :
  lookup_group k (set_group k' v acc) =
    if String.eqb k k' then Some v else lookup_group k acc.
Proof.
  induction acc as [|[k0 v0] acc IH]; cbn.
  - reflexivity.
  - destruct (String.eqb_spec k' k0) as [<-|Hne]; cbn.
    + destruct (String.eqb k k'); reflexivity.
    + destruct (String.eqb_spec k k0) as [->|Hk]; [|exact IH].
      destruct (String.eqb_spec k0 k'); [congruence|reflexivity].
Qed.

Lemma lookup_group_fold (k : string) (l : list invoice_data) acc :
  nullish (lookup_group k (fold_left group_step l acc)) [] =
    nullish (lookup_group k acc) [] ++ filter (fun x => String.eqb k (d_customerId x)) l.
Proof.
  revert acc. induction l as [|x l IH]; intros acc; cbn.
  - now rewrite app_nil_r.
  - rewrite IH. unfold group_step. rewrite lookup_set_group.
    destruct (String.eqb_spec k (d_customerId x)) as [->|]; cbn.
    + now rewrite <- app_assoc.
    + reflexivity.
Qed.

Lemma sum_amounts_fold (l : list invoice_data) :
  sum_amounts l = fold_right Z.add 0 (map d_amount l).
Proof.
  unfold sum_amounts.
  assert (G : forall acc, fold_left (fun sum invoice => sum + d_amount invoice) l acc =
                          acc + fold_right Z.add 0 (map d_amount l)).
  { induction l as [|x l IH]; intros acc; cbn; [lia|]. rewrite IH. lia. }
  rewrite G. lia.
Qed.

Lemma sum_perm (l1 l2 : list Z) :
  Permutation l1 l2 -> fold_right Z.add 0 l1 = fold_right Z.add 0 l2.
Proof. induction 1; cbn; lia. Qed.

Lemma perm_filter {A} (f : A -> bool) (l1 l2 : list A) :
  Permutation l1 l2 -> Permutation (filter f l1) (filter f l2).
Proof.
  induction 1 as [|x l1 l2 _ IH|x y l|l1 l2 l3 _ IH1 _ IH2]; cbn.
  - constructor.
  - destruct (f x); auto.
  - destruct (f x), (f y); auto using Permutation_refl, perm_swap.
  - eapply Permutation_trans; eauto.
Qed.

(** [customer_row] on any order of a customer's invoices. *)
Lemma customer_row_perm (formatCurrency : jsnum -> string) (d : db) (cu : customer)
    (L : list invoice_data) :
  Permutation L (map to_invoice_data (cust_invs d (c_id cu))) ->
  customer_row formatCurrency cu L = expected_row formatCurrency d cu.
Proof.
  intros HP. unfold customer_row, expected_row.
  rewrite (Permutation_length HP), length_map, !sum_amounts_fold.
  assert (HS : forall st, fold_right Z.add 0 (map d_amount
                 (filter (fun invoice => String.eqb (d_status invoice) st) L)) =
               status_sum st (cust_invs d (c_id cu))).
  { intros st. unfold status_sum. rewrite (sum_perm _ _ (Permutation_map _ (perm_filter _ _ _ HP))).
    f_equal. generalize (cust_invs d (c_id cu)). induction l as [|i l IH]; cbn; [reflexivity|].
    destruct (String.eqb (i_status i) st); cbn; congruence. }
  now rewrite !HS.
Qed.

Lemma filter_all_true {A} (f : A -> bool) (l : list A) :
  (forall x, f x = true) -> filter f l = l.
Proof. intros H. induction l as [|x l IH]; cbn; [|rewrite H, IH]; reflexivity. Qed.

Lemma contains_insensitive_empty (s : string) : contains_insensitive "" s = true.
Proof. unfold contains_insensitive. cbn. destruct (lower s); reflexivity. Qed.

(** The batch of invoices of the listed customers, regrouped under one of
    them, is that customer's invoices. *)
Lemma filter_batch (cu : customer) (ids : list string) (invs : list invoice) :
  In (c_id cu) ids ->
  filter (fun x => String.eqb (c_id cu) (d_customerId x))
    (map to_invoice_data (filter (fun i => existsb (String.eqb (i_customerId i)) ids) invs)) =
  map to_invoice_data (filter (fun i => String.eqb (i_customerId i) (c_id cu)) invs).
Proof.
  intros Hin. induction invs as [|i invs IH]; cbn; [reflexivity|].
  destruct (String.eqb_spec (i_customerId i) (c_id cu)) as [E|Ne].
  - replace (existsb (String.eqb (i_customerId i)) ids) with true.
    + cbn. rewrite E, String.eqb_refl. cbn. now rewrite IH.
    + symmetry. apply existsb_exists. exists (c_id cu). split; [exact Hin|].
      now apply String.eqb_eq.
  - destruct (existsb (String.eqb (i_customerId i)) ids); cbn; [|exact IH].
    replace (String.eqb (c_id cu) (i_customerId i)) with false; [exact IH|].
    symmetry. apply String.eqb_neq. auto.
Qed.

Lemma length_filter_orb {A} (f g : A -> bool) (l : list A) :
  (forall x, In x l -> f x && g x = false) ->
  length (filter (fun x => f x || g x) l) = (length (filter f l) + length (filter g l))%nat.
Proof.
  induction l as [|x l IH]; intros H; cbn; [reflexivity|].
  pose proof (IH (fun y Hy => H y (or_intror Hy))) as IH'.
  specialize (H x (or_introl eq_refl)).
  destruct (f x), (g x); cbn in *; try discriminate; lia.
Qed.

(** With distinct customer ids, every invoice row is counted for at most
    one customer. *)
Lemma count_partition (cs : list customer) (invs : list invoice) :
  NoDup (map c_id cs) ->
  fold_right Z.add 0
    (map (fun cu => Z.of_nat (length (filter (fun i => String.eqb (i_customerId i) (c_id cu)) invs))) cs) =
  Z.of_nat (length (filter (fun i => existsb (fun cu => String.eqb (i_customerId i) (c_id cu)) cs) invs)).
Proof.
  induction cs as [|cu cs IH]; intros Hn; cbn.
  - induction invs as [|i invs IHi]; cbn; auto.
  - inversion Hn as [|? ? Hni Hn']; subst. rewrite IH by exact Hn'.
    rewrite (length_filter_orb (fun i => String.eqb (i_customerId i) (c_id cu))
               (fun i => existsb (fun cu => String.eqb (i_customerId i) (c_id cu)) cs)); [lia|].
    intros i _. destruct (String.eqb_spec (i_customerId i) (c_id cu)) as [E|]; [|reflexivity].
    cbn. destruct (existsb _ cs) eqn:Ex; [|reflexivity]. exfalso. apply Hni.
    apply existsb_exists in Ex as (cu' & Hc & Ee). apply String.eqb_eq in Ee.
    rewrite <- E, Ee. now apply in_map.
Qed.

(** C7: with the empty query, on a working connection, fetchFilteredCustomers
    (both variants) answers one row per customer, in some order: the row of
    [cu] counts the invoice rows whose [customer_id] is [c_id cu] and holds
    [formatCurrency] of the cent sums of their 'pending' and of their
    'paid' amounts.  With distinct customer ids (the primary key) the row
    ids are distinct and the counts add up to the number of invoice rows
    that belong to a customer: no row is counted twice. *)
Theorem fetchFilteredCustomers_all_aggregates (formatCurrency : jsnum -> string)
    (arrange_c : list customer -> list customer)
    (arrange_i : list invoice_data -> list invoice_data) (c : conn) :
  conn_fault c = None ->
  (forall l, Permutation (arrange_c l) l) -> (forall l, Permutation (arrange_i l) l) ->
  let d := conn_db c in
  (exists out, fetchFilteredCustomers formatCurrency arrange_c arrange_i c "" = inr out /\
     Permutation out (map (expected_row formatCurrency d) (t_customers d))) /\
  (exists out, fetchFilteredCustomers_prisma formatCurrency arrange_c arrange_i c "" = inr out /\
     Permutation out (map (expected_row formatCurrency d) (t_customers d))) /\
  (forall out, Permutation out (map (expected_row formatCurrency d) (t_customers d)) ->
     NoDup (map c_id (t_customers d)) ->
     NoDup (map ct_id out) /\
     fold_right Z.add 0 (map ct_total_invoices out) =
       Z.of_nat (length (filter (fun i => existsb (fun cu => String.eqb (i_customerId i) (c_id cu))
                                           (t_customers d)) (t_invoices d)))).
Proof.
  intros Hc Hac Hai d. split; [|split].
  - unfold fetchFilteredCustomers, select. rewrite Hc.
    unfold try_catch, bindE, ret. cbv beta iota.
    set (cs := arrange_c (filter (customer_match "") (t_customers (conn_db c)))).
    assert (Hcs : Permutation cs (t_customers d)).
    { unfold cs. rewrite Hac. rewrite filter_all_true; [reflexivity | apply customer_match_empty]. }
    destruct (0 <? length (map c_id cs))%nat eqn:Hl; cbv beta iota.
    + eexists; split; [reflexivity|]. apply (Permutation_trans (l' := map (expected_row formatCurrency d) cs)).
      * apply Permutation_refl'. apply map_ext_in. intros cu Hcu.
        rewrite lookup_group_fold. cbn [lookup_group nullish app].
        apply customer_row_perm.
        rewrite (perm_filter _ _ _ (Hai _)).
        rewrite filter_batch by (now apply in_map). apply Permutation_refl.
      * now apply Permutation_map.
    + eexists; split; [reflexivity|].
      apply Nat.ltb_ge in Hl. rewrite length_map in Hl.
      destruct cs; [|cbn in Hl; lia]. cbn.
      apply Permutation_nil in Hcs. rewrite Hcs. reflexivity.
  - unfold fetchFilteredCustomers_prisma, select. rewrite Hc.
    unfold try_catch, bindE, ret. cbv beta iota.
    eexists; split; [reflexivity|]. rewrite map_map.
    set (cs := arrange_c _).
    assert (Hcs : Permutation cs (t_customers d)).
    { unfold cs. rewrite Hac. rewrite filter_all_true; [reflexivity|].
      intros cu. now rewrite contains_insensitive_empty. }
    apply (Permutation_trans (l' := map (expected_row formatCurrency d) cs)).
    + apply Permutation_refl'. apply map_ext_in. intros cu _. cbn [fst snd].
      apply customer_row_perm. apply Hai.
    + now apply Permutation_map.
  - intros out Hp Hn. split.
    + apply (Permutation_NoDup (Permutation_map ct_id (Permutation_sym Hp))).
      rewrite map_map. exact Hn.
    + rewrite (sum_perm _ _ (Permutation_map ct_total_invoices Hp)), map_map.
      apply count_partition, Hn.
Qed.

Lemma fetchFilteredCustomers_all_aggregates_witness :
  exists out, fetchFilteredCustomers (fun _ => "$") (fun l => l) (fun l => l) conn_c6 "" = inr out /\
    Permutation out (map (expected_row (fun _ => "$") (conn_db conn_c6)) [cust_c6]).
Proof.
  exact (proj1 (fetchFilteredCustomers_all_aggregates (fun _ => "$") (fun l => l) (fun l => l)
           conn_c6 eq_refl (fun l => Permutation_refl l) (fun l => Permutation_refl l))).
Defined.

(** * Further properties of the data layer *)

(** ** Both ORM variants agree *)

Lemma nullish_prisma_sum (l : list Z) : nullish (prisma_sum l) 0 = fold_right Z.add 0 l.
Proof. destruct l; reflexivity. Qed.

(** The Drizzle [Number(total) || 0] and the Prisma [_sum.amount ?? 0]
    give the same number: the two fetchCardData answer the same on every
    store, the same card data or the same error. *)
Theorem fetchCardData_variants_agree (formatCurrency : jsnum -> string) (c : conn) :
  fetchCardData formatCurrency c = fetchCardData_prisma formatCurrency c.
Proof.
  unfold fetchCardData, fetchCardData_prisma, select.
  destruct (conn_fault c); [reflexivity|].
  cbn [try_catch bindE ret]. now rewrite !Number_text_sum_text, !nullish_prisma_sum.
Qed.

(** ** Edge cases of the invoice search *)

(** A page number below 1 gives a negative OFFSET, which the store
    refuses: fetchFilteredInvoices then throws its fixed error, whatever
    the query and the store. *)
Theorem fetchFilteredInvoices_page_below_one (arrange : list joined -> list joined)
    (c : conn) (q : string) (page : Z) :
  page <= 0 -> fetchFilteredInvoices arrange c q page = inl (JsError "Failed to fetch invoices.").
Proof.
  intros Hp. unfold fetchFilteredInvoices.
  destruct (amount_param_ok q); cbn [negb]; [|reflexivity].
  replace ((page - 1) * ITEMS_PER_PAGE <? 0) with true
    by (symmetry; apply Z.ltb_lt; unfold ITEMS_PER_PAGE; lia).
  reflexivity.
Qed.

Lemma fetchFilteredInvoices_page_below_one_witness :
  0 <= 0 /\ fetchFilteredInvoices (fun l => l) conn_c3 "" 0 = inl (JsError "Failed to fetch invoices.").
Proof. split; [lia | apply (fetchFilteredInvoices_page_below_one (fun l => l) conn_c3 "" 0); lia]. Defined.

(** A query that [parseInt] reads as a number outside the int4 range of
    the [amount] column makes both invoice queries fail, with their fixed
    errors, on every store and for every page. *)
Theorem fetchInvoices_query_out_of_int4 (arrange : list joined -> list joined)
    (c : conn) (q : string) (n page : Z) :
  parseInt q = Some n -> int4_range n = false ->
  fetchFilteredInvoices arrange c q page = inl (JsError "Failed to fetch invoices.") /\
  fetchInvoicesPages c q = inl (JsError "Failed to fetch total number of invoices.").
Proof.
  intros Hq Hr.
  assert (Ha : amount_param_ok q = false) by (unfold amount_param_ok; now rewrite Hq).
  unfold fetchFilteredInvoices, fetchInvoicesPages. rewrite Ha. split; reflexivity.
Qed.

Lemma fetchInvoices_query_out_of_int4_witness :
  parseInt "3000000000" = Some 3000000000 /\ int4_range 3000000000 = false /\
  fetchFilteredInvoices (fun l => l) conn_c3 "3000000000" 1 =
    inl (JsError "Failed to fetch invoices.") /\
  fetchInvoicesPages conn_c3 "3000000000" =
    inl (JsError "Failed to fetch total number of invoices.").
Proof.
  split; [vm_compute; reflexivity|]. split; [reflexivity|].
  apply (fetchInvoices_query_out_of_int4 (fun l => l) conn_c3 "3000000000" 3000000000 1);
    [vm_compute; reflexivity | reflexivity].
Defined.

Lemma searchCondition_empty (r : joined) : searchCondition "" r = true.
Proof.
  unfold searchCondition.
  replace (like_contains "" (Some (i_status (j_inv r)))) with true
    by (symmetry; apply like_match_pct_pct).
  now rewrite orb_true_r.
Qed.

Lemma filter_id_le1 (cs : list customer) (x : string) :
  NoDup (map c_id cs) -> (length (filter (fun c => String.eqb (c_id c) x) cs) <= 1)%nat.
Proof.
  induction cs as [|cu cs IH]; intros Hn; cbn; [lia|].
  inversion Hn as [|? ? Hni Hn']; subst.
  destruct (String.eqb_spec (c_id cu) x) as [E|]; cbn; [|auto].
  destruct (filter (fun c => String.eqb (c_id c) x) cs) as [|c0 l] eqn:Ef; cbn; [lia|].
  exfalso. assert (Hin : In c0 (filter (fun c => String.eqb (c_id c) x) cs))
    by (rewrite Ef; left; reflexivity).
  apply filter_In in Hin as [H1 H2]. apply String.eqb_eq in H2.
  apply Hni. rewrite E, <- H2. now apply in_map.
Qed.

(** With distinct customer ids, the left join has one row per invoice. *)
Lemma length_leftJoin (d : db) :
  NoDup (map c_id (t_customers d)) -> length (leftJoin d) = length (t_invoices d).
Proof.
  intros Hn. unfold leftJoin. induction (t_invoices d) as [|i l IH]; [reflexivity|].
  change (flat_map ?f (i :: l)) with (f i ++ flat_map f l).
  rewrite length_app, IH. cbv beta.
  pose proof (filter_id_le1 (t_customers d) (i_customerId i) Hn) as Hl.
  destruct (filter _ (t_customers d)) as [|c0 [|c1 cs]]; cbn in *; lia.
Qed.

(** The empty search matches every row ([LIKE '%%'] holds for any status):
    with distinct customer ids, fetchInvoicesPages "" is the number of
    pages of 6 that hold all invoices. *)
Theorem fetchInvoicesPages_empty_query (c : conn) :
  conn_fault c = None -> NoDup (map c_id (t_customers (conn_db c))) ->
  fetchInvoicesPages c "" = inr ((Z.of_nat (length (t_invoices (conn_db c))) + 5) / 6).
Proof.
  intros Hc Hn. unfold fetchInvoicesPages, select. rewrite Hc.
  replace (amount_param_ok "") with true by reflexivity. cbn [negb try_catch bindE ret].
  rewrite filter_all_true by apply searchCondition_empty.
  rewrite length_leftJoin by exact Hn. unfold ITEMS_PER_PAGE. now rewrite Qceiling_div6.
Qed.

Lemma fetchInvoicesPages_empty_query_witness :
  conn_fault conn_c6 = None /\ NoDup (map c_id (t_customers (conn_db conn_c6))) /\
  fetchInvoicesPages conn_c6 "" = inr 2.
Proof.
  assert (Hn : NoDup (map c_id (t_customers (conn_db conn_c6))))
    by (cbn; constructor; [intros [] | constructor]).
  split; [reflexivity|]. split; [exact Hn|].
  exact (fetchInvoicesPages_empty_query conn_c6 eq_refl Hn).
Defined.

(** ** The latest invoices *)

Lemma StronglySorted_app_rel {A} (R : A -> A -> Prop) (l1 l2 : list A) (x y : A) :
  StronglySorted R (l1 ++ l2) -> In x l1 -> In y l2 -> R x y.
Proof.
  induction l1 as [|a l1 IH]; intros H Hx Hy; [destruct Hx|].
  cbn in H. apply StronglySorted_inv in H as [H1 H2].
  destruct Hx as [<-|Hx].
  - rewrite Forall_forall in H2. apply H2, in_or_app. now right.
  - now apply IH.
Qed.

(** When the store orders the joined rows by date descending,
    fetchLatestInvoices shows the first 5 of them (all when fewer), and no
    row left out is dated after a row shown. *)
Theorem fetchLatestInvoices_top5 (formatCurrency : jsnum -> string)
    (arrange : list joined -> list joined) (c : conn) (out : list latest_invoice) :
  orders_by date_desc (leftJoin (conn_db c)) (arrange (leftJoin (conn_db c))) ->
  fetchLatestInvoices formatCurrency arrange c = inr out ->
  exists shown rest,
    Permutation (shown ++ rest) (leftJoin (conn_db c)) /\
    length shown = Nat.min 5 (length (leftJoin (conn_db c))) /\
    out = map (fun r => mkLatest (i_id (j_inv r)) (formatCurrency (Num (i_amount (j_inv r))))
                          (option_map c_name (j_cust r)) (option_map c_imageUrl (j_cust r))
                          (option_map c_email (j_cust r))) shown /\
    (forall j k, In j shown -> In k rest -> i_date (j_inv k) <= i_date (j_inv j)).
Proof.
  intros [Hp Hs] H. unfold fetchLatestInvoices, select in H.
  destruct (conn_fault c); [discriminate|]. injection H as <-.
  set (A := arrange (leftJoin (conn_db c))) in *.
  exists (firstn 5 A), (skipn 5 A). split; [|split; [|split]].
  - now rewrite firstn_skipn.
  - now rewrite length_firstn, (Permutation_length Hp).
  - reflexivity.
  - intros j k Hj Hk.
    apply (StronglySorted_app_rel date_desc (firstn 5 A) (skipn 5 A)); auto.
    rewrite firstn_skipn. apply Sorted_StronglySorted; [exact date_desc_trans | exact Hs].
Qed.

Lemma fetchLatestInvoices_top5_witness :
  exists out, fetchLatestInvoices (fun _ => "$") (@rev joined) conn_x6 = inr out /\
  map li_id out = ["i7"; "i6"; "i5"; "i4"; "i3"] /\
  exists shown rest,
    Permutation (shown ++ rest) (leftJoin (conn_db conn_x6)) /\
    length shown = Nat.min 5 (length (leftJoin (conn_db conn_x6))) /\
    out = map (fun r => mkLatest (i_id (j_inv r)) ((fun _ => "$") (Num (i_amount (j_inv r))))
                          (option_map c_name (j_cust r)) (option_map c_imageUrl (j_cust r))
                          (option_map c_email (j_cust r))) shown /\
    (forall j k, In j shown -> In k rest -> i_date (j_inv k) <= i_date (j_inv j)).
Proof.
  eexists. split; [reflexivity|]. split; [reflexivity|].
  apply (fetchLatestInvoices_top5 (fun _ => "$") (@rev joined) conn_x6); [|reflexivity].
  split; [apply Permutation_sym, Permutation_rev|].
  cbn. repeat constructor; unfold date_desc; cbn; lia.
Defined.

(** ** Views of invoices show their customer *)

Lemma in_leftJoin_fk (d : db) (r : joined) :
  invoices_reference_customers d -> In r (leftJoin d) ->
  In (j_inv r) (t_invoices d) /\
  exists cu, j_cust r = Some cu /\ In cu (t_customers d) /\ c_id cu = i_customerId (j_inv r).
Proof.
  intros Hfk Hr. unfold leftJoin in Hr. apply in_flat_map in Hr as [i [Hi Hr]].
  destruct (Hfk i Hi) as [cu0 [Hcu0 Eid]].
  destruct (filter (fun c => String.eqb (c_id c) (i_customerId i)) (t_customers d))
    as [|c0 cs] eqn:Ef.
  - exfalso.
    assert (Hin : In cu0 (filter (fun c => String.eqb (c_id c) (i_customerId i)) (t_customers d)))
      by (apply filter_In; split; [exact Hcu0 | now apply String.eqb_eq]).
    rewrite Ef in Hin. destruct Hin.
  - rewrite <- Ef in Hr. apply in_map_iff in Hr as [cu [<- Hcu]].
    apply filter_In in Hcu as [Hcu Ee]. apply String.eqb_eq in Ee.
    cbn [j_inv j_cust]. split; [exact Hi|]. exists cu. auto.
Qed.

(** When every invoice references a stored customer, every row that
    fetchFilteredInvoices or fetchLatestInvoices answers shows the name,
    email and image of the customer its invoice references: the [null]
    of a left join without a match never reaches these views. *)
Theorem invoice_views_show_customer (formatCurrency : jsnum -> string)
    (a1 a2 : list joined -> list joined) (c : conn) (q : string) (page : Z) :
  (forall l, incl (a1 l) l) -> (forall l, incl (a2 l) l) ->
  invoices_reference_customers (conn_db c) ->
  (forall rows, fetchFilteredInvoices a1 c q page = inr rows ->
     Forall (fun r => row_has_customer (conn_db c) (ir_id r) (ir_name r) (ir_email r)
                        (ir_image_url r)) rows) /\
  (forall out, fetchLatestInvoices formatCurrency a2 c = inr out ->
     Forall (fun r => row_has_customer (conn_db c) (li_id r) (li_name r) (li_email r)
                        (li_image_url r)) out).
Proof.
  intros H1 H2 Hfk. split.
  - intros rows H. apply fetchFilteredInvoices_inv in H as (_ & _ & _ & ->).
    apply Forall_forall. intros r Hr. apply in_map_iff in Hr as [j [<- Hj]].
    apply in_firstn, in_skipn, H1, filter_In in Hj as [Hj _].
    destruct (in_leftJoin_fk _ _ Hfk Hj) as [Hi [cu (Ec & Hcu & Eid)]].
    exists (j_inv j), cu. cbn [transform_invoice ir_id ir_name ir_email ir_image_url].
    rewrite Ec. auto 10.
  - intros out H. unfold fetchLatestInvoices, select in H.
    destruct (conn_fault c); [discriminate|]. injection H as <-.
    apply Forall_forall. intros r Hr. apply in_map_iff in Hr as [j [<- Hj]].
    apply (in_firstn 5 (a2 (leftJoin (conn_db c)))), H2 in Hj.
    destruct (in_leftJoin_fk _ _ Hfk Hj) as [Hi [cu (Ec & Hcu & Eid)]].
    exists (j_inv j), cu. cbn [li_id li_name li_email li_image_url].
    rewrite Ec. auto 10.
Qed.

Lemma invoice_views_show_customer_witness :
  (forall rows, fetchFilteredInvoices (fun l => l) conn_c3 "" 1 = inr rows ->
     Forall (fun r => row_has_customer (conn_db conn_c3) (ir_id r) (ir_name r) (ir_email r)
                        (ir_image_url r)) rows) /\
  (forall out, fetchLatestInvoices (fun _ => "$") (fun l => l) conn_c3 = inr out ->
     Forall (fun r => row_has_customer (conn_db conn_c3) (li_id r) (li_name r) (li_email r)
                        (li_image_url r)) out).
Proof.
  apply (invoice_views_show_customer (fun _ => "$") (fun l => l) (fun l => l) conn_c3 "" 1).
  - intros l. apply incl_refl.
  - intros l. apply incl_refl.
  - intros i [<-|[]]. exists cust_c3. split; [left; reflexivity | reflexivity].
Defined.

(** ** A failing connection *)

(** When every query fails (the store is unreachable, a timeout), each read
    function throws its own fixed error, never the driver's. *)
Theorem read_functions_connection_failure (formatCurrency : jsnum -> string)
    (a_j : list joined -> list joined) (a_c : list customer -> list customer)
    (a_i : list invoice_data -> list invoice_data)
    (a_f : list customer_field -> list customer_field)
    (c : conn) (code q id : string) (page : Z) :
  conn_fault c = Some code ->
  fetchRevenue c = inl (JsError "Failed to fetch revenue data.") /\
  fetchLatestInvoices formatCurrency a_j c = inl (JsError "Failed to fetch the latest invoices.") /\
  fetchCardData formatCurrency c = inl (JsError "Failed to fetch card data.") /\
  fetchCardData_prisma formatCurrency c = inl (JsError "Failed to fetch card data.") /\
  fetchFilteredInvoices a_j c q page = inl (JsError "Failed to fetch invoices.") /\
  fetchInvoicesPages c q = inl (JsError "Failed to fetch total number of invoices.") /\
  fetchInvoiceById c id = inl (JsError "Failed to fetch invoice.") /\
  fetchInvoiceById_prisma c id = inl (JsError "Failed to fetch invoice.") /\
  fetchCustomers a_f c = inl (JsError "Failed to fetch all customers.") /\
  fetchFilteredCustomers formatCurrency a_c a_i c q = inl (JsError "Failed to fetch customer table.") /\
  fetchFilteredCustomers_prisma formatCurrency a_c a_i c q =
    inl (JsError "Failed to fetch customer table.").
Proof.
  intros Hc.
  unfold fetchRevenue, fetchLatestInvoices, fetchCardData, fetchCardData_prisma,
    fetchFilteredInvoices, fetchInvoicesPages, fetchInvoiceById, fetchInvoiceById_prisma,
    fetchCustomers, fetchFilteredCustomers, fetchFilteredCustomers_prisma, select.
  rewrite Hc.
  destruct (amount_param_ok q), ((page - 1) * ITEMS_PER_PAGE <? 0);
    repeat split; reflexivity.
Qed.

Lemma read_functions_connection_failure_witness :
  conn_fault (mkConn db_c1 (Some "57P01")) = Some "57P01" /\
  fetchRevenue (mkConn db_c1 (Some "57P01")) = inl (JsError "Failed to fetch revenue data.").
Proof.
  split; [reflexivity|].
  exact (proj1 (read_functions_connection_failure (fun _ => "$") (fun l => l) (fun l => l)
           (fun l => l) (fun l => l) (mkConn db_c1 (Some "57P01")) "57P01" "" "i1" 1 eq_refl)).
Defined.

(** ** The customer table and the customer list *)

Lemma fetchFilteredCustomers_rows (formatCurrency : jsnum -> string)
    (arrange_c : list customer -> list customer)
    (arrange_i : list invoice_data -> list invoice_data) (c : conn) (q : string) :
  conn_fault c = None ->
  (forall l, Permutation (arrange_c l) l) -> (forall l, Permutation (arrange_i l) l) ->
  exists out, fetchFilteredCustomers formatCurrency arrange_c arrange_i c q = inr out /\
    Permutation out (map (expected_row formatCurrency (conn_db c))
                       (filter (customer_match q) (t_customers (conn_db c)))).
Proof.
  intros Hc Hac Hai. unfold fetchFilteredCustomers, select. rewrite Hc.
  unfold try_catch, bindE, ret. cbv beta iota.
  set (cs := arrange_c (filter (customer_match q) (t_customers (conn_db c)))).
  assert (Hcs : Permutation cs (filter (customer_match q) (t_customers (conn_db c))))
    by apply Hac.
  destruct (0 <? length (map c_id cs))%nat eqn:Hl; cbv beta iota.
  - eexists; split; [reflexivity|].
    apply (Permutation_trans (l' := map (expected_row formatCurrency (conn_db c)) cs)).
    + apply Permutation_refl'. apply map_ext_in. intros cu Hcu.
      rewrite lookup_group_fold. cbn [lookup_group nullish app].
      apply customer_row_perm.
      rewrite (perm_filter _ _ _ (Hai _)).
      rewrite filter_batch by (now apply in_map). apply Permutation_refl.
    + now apply Permutation_map.
  - eexists; split; [reflexivity|].
    apply Nat.ltb_ge in Hl. rewrite length_map in Hl.
    destruct cs; [|cbn in Hl; lia]. cbn.
    apply Permutation_nil in Hcs. rewrite Hcs. reflexivity.
Qed.

Lemma fetchFilteredCustomers_prisma_rows (formatCurrency : jsnum -> string)
    (arrange_c : list customer -> list customer)
    (arrange_i : list invoice_data -> list invoice_data) (c : conn) (q : string) :
  conn_fault c = None ->
  (forall l, Permutation (arrange_c l) l) -> (forall l, Permutation (arrange_i l) l) ->
  exists out, fetchFilteredCustomers_prisma formatCurrency arrange_c arrange_i c q = inr out /\
    Permutation out (map (expected_row formatCurrency (conn_db c))
                       (filter (fun cu => contains_insensitive q (c_name cu) ||
                                          contains_insensitive q (c_email cu))
                          (t_customers (conn_db c)))).
Proof.
  intros Hc Hac Hai. unfold fetchFilteredCustomers_prisma, select. rewrite Hc.
  unfold try_catch, bindE, ret. cbv beta iota.
  eexists; split; [reflexivity|]. rewrite map_map.
  set (cs := arrange_c _).
  apply (Permutation_trans (l' := map (expected_row formatCurrency (conn_db c)) cs)).
  - apply Permutation_refl'. apply map_ext_in. intros cu _. cbn [fst snd].
    apply customer_row_perm. apply Hai.
  - apply Permutation_map. apply Hac.
Qed.

(** C8: for an invoice stored with amount [a] cents, both variants of
    fetchInvoiceById return it with amount [a / 100].  No other read
    operation divides: fetchFilteredInvoices returns the stored cents,
    fetchLatestInvoices hands the stored cents to [formatCurrency], both
    variants of fetchCardData hand it the sums of cents, both variants of
    fetchFilteredCustomers hand it each customer's sums of pending and of
    paid cents, fetchRevenue returns the rows as stored. *)
Theorem fetchInvoiceById_amount_major_units (formatCurrency : jsnum -> string)
    (c : conn) (inv : invoice) :
  conn_fault c = None -> In inv (t_invoices (conn_db c)) ->
  NoDup (map i_id (t_invoices (conn_db c))) ->
  (exists r, fetchInvoiceById c (i_id inv) = inr r /\
     fetchInvoiceById_prisma c (i_id inv) = inr r /\
     f_id r = i_id inv /\ (f_amount r == inject_Z (i_amount inv) / inject_Z 100)%Q) /\
  (forall arrange q page rows, (forall l, incl (arrange l) l) ->
     fetchFilteredInvoices arrange c q page = inr rows ->
     Forall (fun r => exists i, In i (t_invoices (conn_db c)) /\
               ir_id r = i_id i /\ ir_amount r = i_amount i) rows) /\
  (forall arrange rows, (forall l, incl (arrange l) l) ->
     fetchLatestInvoices formatCurrency arrange c = inr rows ->
     Forall (fun r => exists i, In i (t_invoices (conn_db c)) /\
               li_id r = i_id i /\ li_amount r = formatCurrency (Num (i_amount i))) rows) /\
  (forall r, fetchCardData formatCurrency c = inr r ->
     totalPaidInvoices r = formatCurrency (Num (fold_right Z.add 0
        (map i_amount (filter (status_is "paid") (t_invoices (conn_db c)))))) /\
     totalPendingInvoices r = formatCurrency (Num (fold_right Z.add 0
        (map i_amount (filter (status_is "pending") (t_invoices (conn_db c))))))) /\
  (forall r, fetchCardData_prisma formatCurrency c = inr r ->
     totalPaidInvoices r = formatCurrency (Num (fold_right Z.add 0
        (map i_amount (filter (status_is "paid") (t_invoices (conn_db c)))))) /\
     totalPendingInvoices r = formatCurrency (Num (fold_right Z.add 0
        (map i_amount (filter (status_is "pending") (t_invoices (conn_db c))))))) /\
  (forall arrange_c arrange_i q,
     (forall l, Permutation (arrange_c l) l) -> (forall l, Permutation (arrange_i l) l) ->
     exists out, fetchFilteredCustomers formatCurrency arrange_c arrange_i c q = inr out /\
       Forall (fun r => exists cu, In cu (t_customers (conn_db c)) /\
                 r = expected_row formatCurrency (conn_db c) cu) out) /\
  (forall arrange_c arrange_i q,
     (forall l, Permutation (arrange_c l) l) -> (forall l, Permutation (arrange_i l) l) ->
     exists out, fetchFilteredCustomers_prisma formatCurrency arrange_c arrange_i c q = inr out /\
       Forall (fun r => exists cu, In cu (t_customers (conn_db c)) /\
                 r = expected_row formatCurrency (conn_db c) cu) out) /\
  fetchRevenue c = inr (t_revenue (conn_db c)).
Proof.
  intros Hc Hin Hnd.
  destruct (find_unique_id _ _ Hnd Hin) as [Hfind Hfilt].
  split; [|split; [|split; [|split; [|split; [|split; [|split]]]]]].
  - exists (to_form inv).
    unfold fetchInvoiceById, fetchInvoiceById_prisma, select. rewrite Hc. cbn.
    rewrite Hfind, Hfilt. cbn. repeat split; reflexivity.
  - intros arrange q page rows Har H.
    apply fetchFilteredInvoices_inv in H as (_ & _ & _ & ->).
    apply Forall_forall. intros r Hr. apply in_map_iff in Hr as [j [<- Hj]].
    apply in_firstn, in_skipn, Har, filter_In in Hj as [Hj _].
    exists (j_inv j). split; [exact (in_leftJoin_inv _ _ Hj) | split; reflexivity].
  - intros arrange rows Har H.
    unfold fetchLatestInvoices, select in H. rewrite Hc in H.
    unfold try_catch, bindE, ret in H; cbv beta iota in H.
    injection H as <-.
    apply Forall_forall. intros r Hr. apply in_map_iff in Hr as [j [<- Hj]].
    assert (Hj' : In j (firstn 5 (arrange (leftJoin (conn_db c))))) by exact Hj.
    apply in_firstn, Har in Hj'.
    exists (j_inv j). split; [exact (in_leftJoin_inv _ _ Hj') | split; reflexivity].
  - intros r H. unfold fetchCardData, select in H. rewrite Hc in H. cbn in H.
    injection H as <-. cbn. rewrite !Number_text_sum_text. split; reflexivity.
  - intros r H. unfold fetchCardData_prisma, select in H. rewrite Hc in H. cbn in H.
    injection H as <-. cbn. rewrite !nullish_prisma_sum. split; reflexivity.
  - intros arrange_c arrange_i q Hac Hai.
    destruct (fetchFilteredCustomers_rows formatCurrency arrange_c arrange_i c q Hc Hac Hai)
      as [out [Hout Hp]].
    exists out. split; [exact Hout|]. apply Forall_forall. intros r Hr.
    apply (Permutation_in _ Hp), in_map_iff in Hr as [cu [<- Hcu]].
    apply filter_In in Hcu as [Hcu _]. now exists cu.
  - intros arrange_c arrange_i q Hac Hai.
    destruct (fetchFilteredCustomers_prisma_rows formatCurrency arrange_c arrange_i c q Hc Hac Hai)
      as [out [Hout Hp]].
    exists out. split; [exact Hout|]. apply Forall_forall. intros r Hr.
    apply (Permutation_in _ Hp), in_map_iff in Hr as [cu [<- Hcu]].
    apply filter_In in Hcu as [Hcu _]. now exists cu.
  - unfold fetchRevenue, select. rewrite Hc. reflexivity.
Qed.

Lemma fetchInvoiceById_amount_major_units_witness :
  exists r, fetchInvoiceById conn_c1 "i1" = inr r /\
    (f_amount r == inject_Z 1000 / inject_Z 100)%Q.
Proof.
  destruct (fetchInvoiceById_amount_major_units (fun _ => "") conn_c1
              (mkInvoice "i1" "c1" 1000 "paid" 5) eq_refl
              (or_introl eq_refl) ltac:(cbn; repeat constructor; cbn; tauto))
    as [[r [H1 [_ [_ H4]]]] _].
  exists r. split; [exact H1 | exact H4].
Defined.

(** For any search text, on a working connection, the customer table
    has one row per matching customer (Drizzle: case-sensitive [LIKE '%q%'] on
    name or email; Prisma: case-insensitive [contains] on name or email), in some
    order, and each row holds that customer's invoice count and the
    formatted cent sums of its pending and of its paid invoices.  No
    customer gets a row of another one's invoices. *)
Theorem fetchFilteredCustomers_query (formatCurrency : jsnum -> string)
    (arrange_c : list customer -> list customer)
    (arrange_i : list invoice_data -> list invoice_data) (c : conn) (q : string) :
  conn_fault c = None ->
  (forall l, Permutation (arrange_c l) l) -> (forall l, Permutation (arrange_i l) l) ->
  let d := conn_db c in
  (exists out, fetchFilteredCustomers formatCurrency arrange_c arrange_i c q = inr out /\
     Permutation out (map (expected_row formatCurrency d) (filter (customer_match q) (t_customers d)))) /\
  (exists out, fetchFilteredCustomers_prisma formatCurrency arrange_c arrange_i c q = inr out /\
     Permutation out (map (expected_row formatCurrency d)
                        (filter (fun cu => contains_insensitive q (c_name cu) ||
                                           contains_insensitive q (c_email cu)) (t_customers d)))).
Proof.
  intros Hc Hac Hai d. split.
  - exact (fetchFilteredCustomers_rows formatCurrency arrange_c arrange_i c q Hc Hac Hai).
  - exact (fetchFilteredCustomers_prisma_rows formatCurrency arrange_c arrange_i c q Hc Hac Hai).
Qed.

Lemma fetchFilteredCustomers_query_witness :
  (exists out, fetchFilteredCustomers (fun _ => "$") (fun l => l) (fun l => l) conn_c6 "ann" = inr out /\
     Permutation out (map (expected_row (fun _ => "$") (conn_db conn_c6))
                        (filter (customer_match "ann") (t_customers (conn_db conn_c6))))) /\
  (exists out, fetchFilteredCustomers_prisma (fun _ => "$") (fun l => l) (fun l => l) conn_c6 "ann" = inr out /\
     Permutation out (map (expected_row (fun _ => "$") (conn_db conn_c6))
                        (filter (fun cu => contains_insensitive "ann" (c_name cu) ||
                                           contains_insensitive "ann" (c_email cu))
                           (t_customers (conn_db conn_c6))))).
Proof.
  exact (fetchFilteredCustomers_query (fun _ => "$") (fun l => l) (fun l => l) conn_c6 "ann"
           eq_refl (fun l => Permutation_refl l) (fun l => Permutation_refl l)).
Defined.

(** fetchCustomers lists every customer once, as its id and name; these
    are the customers of the customer table with the empty search, so a
    form's customer list and the customer table show the same ids. *)
Theorem fetchCustomers_lists_customers (formatCurrency : jsnum -> string)
    (arrange : list customer_field -> list customer_field)
    (arrange_c : list customer -> list customer)
    (arrange_i : list invoice_data -> list invoice_data) (c : conn) :
  conn_fault c = None -> (forall l, Permutation (arrange l) l) ->
  (forall l, Permutation (arrange_c l) l) -> (forall l, Permutation (arrange_i l) l) ->
  exists out, fetchCustomers arrange c = inr out /\
    Permutation out (map (fun cu => mkCustomerField (c_id cu) (c_name cu))
                       (t_customers (conn_db c))) /\
    (forall out', fetchFilteredCustomers formatCurrency arrange_c arrange_i c "" = inr out' ->
       Permutation (map cf_id out) (map ct_id out')).
Proof.
  intros Hc Ha Hac Hai. unfold fetchCustomers, select. rewrite Hc.
  eexists. split; [reflexivity|]. cbn [try_catch bindE ret].
  split; [apply Ha|].
  intros out' H.
  destruct (fetchFilteredCustomers_rows formatCurrency arrange_c arrange_i c "" Hc Hac Hai)
    as (o & Ho & Hp). rewrite H in Ho. injection Ho as ->.
  rewrite filter_all_true in Hp by apply customer_match_empty.
  apply (Permutation_trans (Permutation_map cf_id (Ha _))).
  rewrite map_map. cbn [cf_id].
  apply Permutation_sym, (Permutation_trans (Permutation_map ct_id Hp)).
  rewrite map_map. apply Permutation_refl.
Qed.

Lemma fetchCustomers_lists_customers_witness :
  exists out, fetchCustomers (fun l => l) conn_c6 = inr out /\
    Permutation out (map (fun cu => mkCustomerField (c_id cu) (c_name cu))
                       (t_customers (conn_db conn_c6))) /\
    (forall out', fetchFilteredCustomers (fun _ => "$") (fun l => l) (fun l => l) conn_c6 "" = inr out' ->
       Permutation (map cf_id out) (map ct_id out')).
Proof.
  exact (fetchCustomers_lists_customers (fun _ => "$") (fun l => l) (fun l => l) (fun l => l)
           conn_c6 eq_refl (fun l => Permutation_refl l) (fun l => Permutation_refl l)
           (fun l => Permutation_refl l)).
Defined.

(** ** Seeding *)

Lemma length_replace_nth {A} (i : nat) (x : A) (l : list A) :
  length (replace_nth i x l) = length l.
Proof. revert i; induction l as [|y l IH]; intros [|i]; cbn; auto. Qed.

Lemma nth_error_replace_nth_cases {A} (i j : nat) (x y : A) (l : list A) :
  nth_error (replace_nth i x l) j = Some y ->
  (j = i /\ y = x) \/ (j <> i /\ nth_error l j = Some y).
Proof.
  revert i j; induction l as [|z l IH]; intros [|i] [|j] H; cbn in H; try discriminate.
  - left. split; [reflexivity | congruence].
  - right. split; [lia | exact H].
  - right. split; [lia | exact H].
  - destruct (IH _ _ H) as [[-> ->] | [Hne H']]; [left; auto | right; split; [lia | exact H']].
Qed.

Lemma nth_error_replace_nth_eq {A} (i : nat) (x : A) (l : list A) :
  (i < length l)%nat -> nth_error (replace_nth i x l) i = Some x.
Proof.
  revert i; induction l as [|y l IH]; intros [|i] H; cbn in *; try lia; auto.
  apply IH. lia.
Qed.

Lemma nth_error_replace_nth_neq {A} (i j : nat) (x : A) (l : list A) :
  j <> i -> nth_error (replace_nth i x l) j = nth_error l j.
Proof.
  revert i j; induction l as [|y l IH]; intros [|i] [|j] H; cbn; auto; try congruence.
  all: apply IH; lia.
Qed.

Lemma replace_nth_same {A} (i : nat) (x : A) (l : list A) :
  nth_error l i = Some x -> replace_nth i x l = l.
Proof.
  revert i; induction l as [|y l IH]; intros [|i] H; cbn in *; try discriminate.
  - now injection H as ->.
  - now rewrite IH.
Qed.

Lemma in_replace_nth {A} (i : nat) (x y : A) (l : list A) :
  In y (replace_nth i x l) -> y = x \/ In y l.
Proof.
  revert i; induction l as [|z l IH]; intros [|i] H; cbn in *; try tauto.
  - destruct H as [<- | H]; [left | right; right]; auto.
  - destruct H as [<- | H]; [right; left; reflexivity|].
    destruct (IH _ H); [left | right; right]; auto.
Qed.

Lemma nth_error_lt {A} (l : list A) (i : nat) (a : A) :
  nth_error l i = Some a -> (i < length l)%nat.
Proof. intros H. apply nth_error_Some. congruence. Qed.

Section Pool.

Context {A : Type} (check : A -> SM bool) (insert : A -> SM unit).

Lemma run_pool_app (xs : list A) sc1 sc2 ps err s :
  run_pool check insert xs (sc1 ++ sc2) ps err s =
  let '(s1, ps1, err1) := run_pool check insert xs sc1 ps err s in
  run_pool check insert xs sc2 ps1 err1 s1.
Proof.
  revert ps err s. induction sc1 as [|i sc1 IH]; intros ps err s; cbn; [reflexivity|].
  destruct (nth_error xs i), (nth_error ps i); try apply IH.
  destruct (step check insert a p s). apply IH.
Qed.

Lemma run_pool_inv (xs : list A) (I : st -> list phase -> option js_error -> Prop) :
  (forall s ps err i a ph s1 ph1, I s ps err -> nth_error xs i = Some a ->
     nth_error ps i = Some ph -> step check insert a ph s = (s1, ph1) ->
     I s1 (replace_nth i ph1 ps) (first_failure err ph ph1)) ->
  forall sched ps err s s' ps' err', I s ps err ->
  run_pool check insert xs sched ps err s = (s', ps', err') -> I s' ps' err'.
Proof.
  intros Hstep sched. induction sched as [|i sched IH]; intros ps err s s' ps' err' HI H;
    cbn in H.
  - injection H as <- <- <-. exact HI.
  - destruct (nth_error xs i) as [a|] eqn:Ea, (nth_error ps i) as [ph|] eqn:Eph;
      try (eapply IH; [exact HI | exact H]).
    destruct (step check insert a ph s) as [s1 ph1] eqn:Es.
    eapply IH; [eapply Hstep; eassumption | exact H].
Qed.

Lemma run_pool_length (xs : list A) sched ps err s s' ps' err' :
  length ps = length xs ->
  run_pool check insert xs sched ps err s = (s', ps', err') -> length ps' = length xs.
Proof.
  apply (run_pool_inv xs (fun _ ps _ => length ps = length xs)).
  intros. now rewrite length_replace_nth.
Qed.

Lemma step_terminal (a : A) ph s : terminal ph -> step check insert a ph s = (s, ph).
Proof. destruct ph; cbn; tauto. Qed.

Lemma step_twice (a : A) ph s s1 ph1 s2 ph2 :
  step check insert a ph s = (s1, ph1) -> step check insert a ph1 s1 = (s2, ph2) ->
  terminal ph2.
Proof.
  assert (Hins : forall t t1 ph', step check insert a PInsert t = (t1, ph') -> terminal ph').
  { intros t t1 ph' H. cbn in H. destruct (insert a t) as [t' [e|u]];
      injection H as _ <-; exact I. }
  assert (Hterm : forall ph0 t t1 ph', terminal ph0 ->
            step check insert a ph0 t = (t1, ph') -> terminal ph').
  { intros ph0 t t1 ph' Ht H. rewrite step_terminal in H by exact Ht.
    injection H as _ <-. exact Ht. }
  destruct ph; intros H1 H2.
  - cbn in H1. destruct (check a s) as [t [e|[|]]]; injection H1 as <- <-.
    + refine (Hterm _ _ _ _ _ H2). exact I.
    + refine (Hterm _ _ _ _ _ H2). exact I.
    + eapply Hins, H2.
  - refine (Hterm _ _ _ _ _ H2). eapply Hins, H1.
  - refine (Hterm _ _ _ _ _ H2). refine (Hterm _ _ _ _ _ H1). exact I.
  - refine (Hterm _ _ _ _ _ H2). refine (Hterm _ _ _ _ _ H1). exact I.
Qed.

(** After [drain n] the first [n] callbacks have finished. *)
Lemma run_pool_drain (xs : list A) n ps err s s' ps' err' :
  length ps = length xs -> (n <= length xs)%nat ->
  run_pool check insert xs (drain n) ps err s = (s', ps', err') ->
  forall j, (j < n)%nat -> exists ph, nth_error ps' j = Some ph /\ terminal ph.
Proof.
  revert s' ps' err'. induction n as [|n IH]; intros s' ps' err' Hl Hn H j Hj; [lia|].
  unfold drain in H. rewrite seq_S, flat_map_app in H. cbn [flat_map app] in H.
  rewrite run_pool_app in H.
  destruct (run_pool check insert xs (flat_map (fun i => [i; i]) (seq 0 n)) ps err s)
    as [[s1 ps1] err1] eqn:E1.
  assert (Hl1 : length ps1 = length xs) by (eapply run_pool_length; [exact Hl | exact E1]).
  assert (IH1 := IH s1 ps1 err1 Hl ltac:(lia) E1).
  destruct (nth_error xs n) as [a|] eqn:Ea; [| apply nth_error_None in Ea; lia].
  destruct (nth_error ps1 n) as [ph|] eqn:Eph; [| apply nth_error_None in Eph; lia].
  cbn in H. rewrite Ea, Eph in H.
  destruct (step check insert a ph s1) as [s2 ph1] eqn:S1.
  rewrite nth_error_replace_nth_eq in H by lia.
  destruct (step check insert a ph1 s2) as [s3 ph2] eqn:S2.
  injection H as <- <- <-.
  destruct (Nat.eq_dec j n) as [-> | Hne].
  - exists ph2. rewrite nth_error_replace_nth_eq by (rewrite length_replace_nth; lia).
    split; [reflexivity | exact (step_twice _ _ _ _ _ _ _ S1 S2)].
  - rewrite !nth_error_replace_nth_neq by exact Hne. apply IH1. lia.
Qed.

Lemma first_failure_same err ph : terminal ph -> first_failure err ph ph = err.
Proof. destruct err, ph; cbn; tauto. Qed.

(** Every stored state lies in a reflexive, transitive relation with the
    one before when each insert does. *)
Lemma promise_all_rel (R : st -> st -> Prop) (xs : list A) :
  (forall s, R s s) -> (forall s1 s2 s3, R s1 s2 -> R s2 s3 -> R s1 s3) ->
  (forall a s, fst (check a s) = s) ->
  (forall a s s' r, In a xs -> insert a s = (s', r) -> R s s') ->
  forall sched s s' r, promise_all check insert sched xs s = (s', r) -> R s s'.
Proof.
  intros Hrefl Htrans Hcheck Hins sched s s' r H. unfold promise_all in H.
  destruct (run_pool check insert xs (sched ++ drain (length xs))
              (repeat PCheck (length xs)) None s) as [[s1 ps1] err] eqn:E.
  assert (Hs1 : R s s1).
  { refine (run_pool_inv xs (fun t _ _ => R s t) _ _ _ _ _ _ _ _ (Hrefl s) E).
    intros t ps e i a ph t1 ph1 Ht Ha _ Hst. eapply Htrans; [exact Ht|].
    destruct ph; cbn in Hst.
    - specialize (Hcheck a t). destruct (check a t) as [t' [e'|[|]]]; cbn in Hcheck; subst t';
        injection Hst as <- _; apply Hrefl.
    - destruct (insert a t) as [t' r'] eqn:Ei. eapply Hins in Ei; [|eapply nth_error_In, Ha].
      destruct r'; injection Hst as <- _; exact Ei.
    - injection Hst as <- _. apply Hrefl.
    - injection Hst as <- _. apply Hrefl. }
  destruct err; injection H as <- _; exact Hs1.
Qed.

Section Success.

Variable present : A -> db -> bool.
Hypothesis check_state : forall a s, fst (check a s) = s.
Hypothesis check_true : forall a s, snd (check a s) = inr true -> present a (s_db s) = true.
Hypothesis insert_ok : forall a s s' u, insert a s = (s', inr u) -> present a (s_db s') = true.
Hypothesis insert_keeps : forall a b s s' r,
  insert b s = (s', r) -> present a (s_db s) = true -> present a (s_db s') = true.

(** A [Promise.all] that resolves leaves every record's row stored. *)
Lemma promise_all_present sched xs s s' v :
  promise_all check insert sched xs s = (s', inr v) ->
  Forall (fun a => present a (s_db s') = true) xs.
Proof.
  intros H. unfold promise_all in H.
  destruct (run_pool check insert xs (sched ++ drain (length xs))
              (repeat PCheck (length xs)) None s) as [[s1 ps1] err] eqn:E.
  destruct err as [e|]; [discriminate|]. injection H as <- _.
  set (Inv := fun (t : st) (ps : list phase) (err : option js_error) =>
        length ps = length xs /\
        (forall i a, nth_error xs i = Some a -> nth_error ps i = Some PDone ->
                     present a (s_db t) = true) /\
        (err = None -> forall i e, nth_error ps i <> Some (PFailed e))).
  assert (HI : Inv s1 ps1 None).
  { refine (run_pool_inv xs Inv _ _ _ _ _ _ _ _ _ E).
    - intros t ps err i a ph t1 ph1 (Hl & Hd & Hf) Ha Hph Hst.
      assert (Hi : (i < length ps)%nat) by (eapply nth_error_lt, Hph).
      split; [rewrite length_replace_nth; exact Hl|].
      destruct ph; cbn in Hst.
      + specialize (check_state a t). specialize (check_true a t).
        destruct (check a t) as [t' [e'|[|]]]; cbn in check_state, check_true; subst t';
          injection Hst as <- <-.
        * split; [|destruct err; discriminate].
          intros j b Hb Hj. apply nth_error_replace_nth_cases in Hj as [[_ Hj]|[_ Hj]];
            [discriminate | exact (Hd _ _ Hb Hj)].
        * split.
          -- intros j b Hb Hj. apply nth_error_replace_nth_cases in Hj as [[-> _]|[_ Hj]];
               [rewrite Ha in Hb; injection Hb as <-; apply check_true; reflexivity
               | exact (Hd _ _ Hb Hj)].
          -- intros He j e' Hj. apply nth_error_replace_nth_cases in Hj as [[_ Hj]|[_ Hj]];
               [discriminate|]. destruct err; [discriminate|]. exact (Hf eq_refl _ _ Hj).
        * split.
          -- intros j b Hb Hj. apply nth_error_replace_nth_cases in Hj as [[_ Hj]|[_ Hj]];
               [discriminate | exact (Hd _ _ Hb Hj)].
          -- intros He j e' Hj. apply nth_error_replace_nth_cases in Hj as [[_ Hj]|[_ Hj]];
               [discriminate|]. destruct err; [discriminate|]. exact (Hf eq_refl _ _ Hj).
      + destruct (insert a t) as [t' [e'|u]] eqn:Ei; injection Hst as <- <-.
        * split; [|destruct err; discriminate].
          intros j b Hb Hj. apply nth_error_replace_nth_cases in Hj as [[_ Hj]|[_ Hj]];
            [discriminate | exact (insert_keeps _ _ _ _ _ Ei (Hd _ _ Hb Hj))].
        * split.
          -- intros j b Hb Hj. apply nth_error_replace_nth_cases in Hj as [[-> _]|[_ Hj]].
             ++ rewrite Ha in Hb. injection Hb as <-. exact (insert_ok _ _ _ _ Ei).
             ++ exact (insert_keeps _ _ _ _ _ Ei (Hd _ _ Hb Hj)).
          -- intros He j e' Hj. apply nth_error_replace_nth_cases in Hj as [[_ Hj]|[_ Hj]];
               [discriminate|]. destruct err; [discriminate|]. exact (Hf eq_refl _ _ Hj).
      + injection Hst as <- <-. rewrite replace_nth_same by exact Hph.
        rewrite first_failure_same by exact I. split; assumption.
      + injection Hst as <- <-. rewrite replace_nth_same by exact Hph.
        rewrite first_failure_same by exact I. split; assumption.
    - split; [apply repeat_length|]. split; [|intros _ i e' Hi; apply nth_error_In, repeat_spec in Hi; discriminate].
      intros i a _ Hi. apply nth_error_In, repeat_spec in Hi. discriminate. }
  destruct HI as (Hl & Hd & Hf).
  rewrite run_pool_app in E.
  destruct (run_pool check insert xs sched (repeat PCheck (length xs)) None s)
    as [[s2 ps2] err2] eqn:E2.
  assert (Hl2 : length ps2 = length xs)
    by (eapply run_pool_length; [apply repeat_length | exact E2]).
  apply Forall_forall. intros a Ha. destruct (In_nth_error _ _ Ha) as [i Hi].
  destruct (run_pool_drain xs (length xs) ps2 err2 s2 s1 ps1 None Hl2 (le_n _) E i
              (nth_error_lt _ _ _ Hi)) as [ph [Hph Ht]].
  destruct ph; try contradiction.
  - exact (Hd _ _ Hi Hph).
  - exfalso. exact (Hf eq_refl _ _ Hph).
Qed.

End Success.

Section AllPresent.

Variable present : A -> db -> bool.
Hypothesis check_present : forall a s, present a (s_db s) = true ->
  check a s = (s, match s_fault s with Some code => inl (DbError code) | None => inr true end).

(** When every record's row is stored already, no callback inserts: the
    state stays, and without a failure [Promise.all] resolves. *)
Lemma promise_all_unchanged sched xs s :
  Forall (fun a => present a (s_db s) = true) xs ->
  fst (promise_all check insert sched xs s) = s /\
  (s_fault s = None -> snd (promise_all check insert sched xs s) = inr (repeat tt (length xs))).
Proof.
  intros Hall. unfold promise_all.
  destruct (run_pool check insert xs (sched ++ drain (length xs))
              (repeat PCheck (length xs)) None s) as [[s1 ps1] err] eqn:E.
  set (J := fun (t : st) (ps : list phase) (err : option js_error) =>
        t = s /\ (forall ph, In ph ps -> ph <> PInsert) /\
        (s_fault s = None -> err = None /\ forall ph, In ph ps -> ph = PCheck \/ ph = PDone)).
  assert (HJ : J s1 ps1 err).
  { refine (run_pool_inv xs J _ _ _ _ _ _ _ _ _ E).
    - intros t ps err0 i a ph t1 ph1 (-> & Hn & Hf) Ha Hph Hst.
      assert (Hp : present a (s_db s) = true)
        by (apply (proj1 (Forall_forall _ xs) Hall); eapply nth_error_In, Ha).
      assert (Hin : In ph ps) by (eapply nth_error_In, Hph).
      destruct ph; cbn in Hst.
      + rewrite (check_present a s Hp) in Hst.
        destruct (s_fault s) as [code|] eqn:Ef; injection Hst as <- <-.
        * split; [reflexivity|]. split; [|discriminate].
          intros ph Hph'. apply in_replace_nth in Hph' as [-> | Hph']; [discriminate | exact (Hn _ Hph')].
        * split; [reflexivity|]. split.
          -- intros ph Hph'. apply in_replace_nth in Hph' as [-> | Hph']; [discriminate | exact (Hn _ Hph')].
          -- intros _. destruct (Hf eq_refl) as [-> Hc]. split; [reflexivity|].
             intros ph Hph'. apply in_replace_nth in Hph' as [-> | Hph']; [right; reflexivity | exact (Hc _ Hph')].
      + exfalso. exact (Hn _ Hin eq_refl).
      + injection Hst as <- <-. rewrite replace_nth_same by exact Hph.
        rewrite first_failure_same by exact I. split; [reflexivity | auto].
      + injection Hst as <- <-. rewrite replace_nth_same by exact Hph.
        rewrite first_failure_same by exact I. split; [reflexivity | auto].
    - split; [reflexivity|]. split.
      + intros ph Hph. apply repeat_spec in Hph. now subst.
      + intros _. split; [reflexivity|]. intros ph Hph. apply repeat_spec in Hph. now left. }
  destruct HJ as (-> & _ & Hf).
  split; [destruct err; reflexivity|].
  intros Hn. destruct (Hf Hn) as [-> _]. reflexivity.
Qed.

End AllPresent.

End Pool.

(** *** The stages of the Drizzle seed *)

Lemma firstn1_filter_existsb {B} (f : B -> bool) (l : list B) :
  negb (length (firstn 1 (filter f l)) =? 0)%nat = existsb f l.
Proof.
  induction l as [|x l IH]; cbn; [reflexivity|].
  destruct (f x); cbn; [reflexivity | exact IH].
Qed.

Lemma uuid_eqb_ok_r (a b : string) : uuid_eqb a b = true -> uuid_ok b = true.
Proof. unfold uuid_eqb, uuid_ok. destruct (uuid_digits a), (uuid_digits b); easy. Qed.

Lemma uuid_eqb_refl (a : string) : uuid_ok a = true -> uuid_eqb a a = true.
Proof.
  unfold uuid_eqb, uuid_ok. destruct (uuid_digits a); [intros _; apply String.eqb_refl | discriminate].
Qed.

Lemma existsb_key_ok {B} (key : B -> string) (l : list B) (k : string) :
  existsb (fun v => uuid_eqb (key v) k) l = true -> uuid_ok k = true.
Proof. intros H. apply existsb_exists in H as [v [_ Hv]]. eapply uuid_eqb_ok_r, Hv. Qed.

Lemma existsb_app_mono {B} (f : B -> bool) (l a : list B) :
  existsb f l = true -> existsb f (l ++ a) = true.
Proof. intros H. rewrite existsb_app, H. reflexivity. Qed.

Lemma existsb_app_last {B} (f : B -> bool) (l : list B) (x : B) :
  f x = true -> existsb f (l ++ [x]) = true.
Proof. intros H. rewrite existsb_app. cbn. rewrite H, orb_true_r. reflexivity. Qed.

Lemma db_le_refl (d : db) : db_le d d.
Proof. repeat split; exists []; now rewrite app_nil_r. Qed.

Lemma db_le_trans (d1 d2 d3 : db) : db_le d1 d2 -> db_le d2 d3 -> db_le d1 d3.
Proof.
  intros ([a1 E1] & [b1 F1] & [c1 G1] & [r1 H1]) ([a2 E2] & [b2 F2] & [c2 G2] & [r2 H2]).
  repeat split; [exists (a1 ++ a2) | exists (b1 ++ b2) | exists (c1 ++ c2) | exists (r1 ++ r2)];
    rewrite app_assoc; congruence.
Qed.

Lemma users_added_refl P bcrypt_hash d : users_added P bcrypt_hash d d.
Proof. exists []. now rewrite app_nil_r. Qed.

Lemma users_added_trans P bcrypt_hash d1 d2 d3 :
  users_added P bcrypt_hash d1 d2 -> users_added P bcrypt_hash d2 d3 ->
  users_added P bcrypt_hash d1 d3.
Proof.
  intros [a [E1 F1]] [b [E2 F2]]. exists (a ++ b).
  rewrite E2, E1, app_assoc. split; [reflexivity | now apply Forall_app].
Qed.

Lemma seed_step_refl P bcrypt_hash s : seed_step P bcrypt_hash s s.
Proof. split; [apply db_le_refl | split; [reflexivity | apply users_added_refl]]. Qed.

Lemma seed_step_trans P bcrypt_hash s1 s2 s3 :
  seed_step P bcrypt_hash s1 s2 -> seed_step P bcrypt_hash s2 s3 -> seed_step P bcrypt_hash s1 s3.
Proof.
  intros (D1 & F1 & U1) (D2 & F2 & U2). split; [eapply db_le_trans; eassumption|].
  split; [congruence | eapply users_added_trans; eassumption].
Qed.

(** A step that keeps the users table. *)
Lemma seed_step_users P bcrypt_hash s s' :
  db_le (s_db s) (s_db s') -> s_fault s' = s_fault s ->
  t_users (s_db s') = t_users (s_db s) -> seed_step P bcrypt_hash s s'.
Proof. intros D F U. split; [exact D | split; [exact F | exists []; now rewrite app_nil_r]]. Qed.

Lemma seed_step_log P bcrypt_hash m s : seed_step P bcrypt_hash s (fst (slog m s)).
Proof. apply seed_step_users; [apply db_le_refl | reflexivity | reflexivity]. Qed.

Lemma user_present_mono u d d' : db_le d d' -> user_present u d = true -> user_present u d' = true.
Proof. intros ([a E] & _) H. unfold user_present in *. rewrite E. now apply existsb_app_mono. Qed.

Lemma customer_present_mono cu d d' :
  db_le d d' -> customer_present cu d = true -> customer_present cu d' = true.
Proof. intros (_ & [b E] & _) H. unfold customer_present in *. rewrite E. now apply existsb_app_mono. Qed.

Lemma revenue_present_mono r d d' :
  db_le d d' -> revenue_present r d = true -> revenue_present r d' = true.
Proof. intros (_ & _ & _ & [c E]) H. unfold revenue_present in *. rewrite E. now apply existsb_app_mono. Qed.

Lemma stage_done_mono (P : placeholder) (x : stage) (d d' : db) :
  db_le d d' -> stage_done P x d -> stage_done P x d'.
Proof.
  intros Hle Hd. destruct x; cbn in *.
  - eapply Forall_impl; [|exact Hd]. intros u. now apply user_present_mono.
  - eapply Forall_impl; [|exact Hd]. intros u. now apply customer_present_mono.
  - eapply Forall_impl; [|exact Hd]. intros u. now apply revenue_present_mono.
  - destruct Hle as (_ & _ & [c G] & _). rewrite G, length_app. lia.
Qed.

Lemma sselect_state {B} (q : db -> js_error + B) s : fst (sselect q s) = s.
Proof. unfold sselect. destruct (s_fault s); reflexivity. Qed.

Lemma user_check_true u s : snd (user_check u s) = inr true -> user_present u (s_db s) = true.
Proof.
  unfold user_check, sselect. destruct (s_fault s); [discriminate|].
  destruct (uuid_ok (u_id u)); [|discriminate]. cbn [snd].
  rewrite firstn1_filter_existsb. intros H. injection H as H. exact H.
Qed.

Lemma user_check_present u s : user_present u (s_db s) = true ->
  user_check u s = (s, match s_fault s with Some code => inl (DbError code) | None => inr true end).
Proof.
  intros H. unfold user_check, sselect. destruct (s_fault s); [reflexivity|].
  unfold user_present in H. rewrite (existsb_key_ok u_id _ _ H). cbv zeta.
  rewrite firstn1_filter_existsb, H. reflexivity.
Qed.

Lemma customer_check_true cu s :
  snd (customer_check cu s) = inr true -> customer_present cu (s_db s) = true.
Proof.
  unfold customer_check, sselect. destruct (s_fault s); [discriminate|].
  destruct (uuid_ok (c_id cu)); [|discriminate]. cbn [snd].
  rewrite firstn1_filter_existsb. intros H. injection H as H. exact H.
Qed.

Lemma customer_check_present cu s : customer_present cu (s_db s) = true ->
  customer_check cu s = (s, match s_fault s with Some code => inl (DbError code) | None => inr true end).
Proof.
  intros H. unfold customer_check, sselect. destruct (s_fault s); [reflexivity|].
  unfold customer_present in H. rewrite (existsb_key_ok c_id _ _ H). cbv zeta.
  rewrite firstn1_filter_existsb, H. reflexivity.
Qed.

Lemma revenue_check_true r s :
  snd (revenue_check r s) = inr true -> revenue_present r (s_db s) = true.
Proof.
  unfold revenue_check, squery, sselect. destruct (s_fault s); [discriminate|]. cbn [snd].
  rewrite firstn1_filter_existsb. intros H. injection H as H. exact H.
Qed.

Lemma revenue_check_present r s : revenue_present r (s_db s) = true ->
  revenue_check r s = (s, match s_fault s with Some code => inl (DbError code) | None => inr true end).
Proof.
  intros H. unfold revenue_check, squery, sselect. destruct (s_fault s); [reflexivity|].
  cbv zeta. rewrite firstn1_filter_existsb. unfold revenue_present in H. rewrite H. reflexivity.
Qed.

Lemma insert_user_spec u s s' r : insert_user u s = (s', r) ->
  (s' = s /\ exists e, r = inl e) \/
  (s_fault s = None /\ uuid_ok (u_id u) = true /\
   s' = set_db s (mkDb (t_users (s_db s) ++ [u]) (t_customers (s_db s))
                       (t_invoices (s_db s)) (t_revenue (s_db s))) /\ r = inr [u]).
Proof.
  unfold insert_user. intros H.
  destruct (s_fault s) eqn:Ef; [injection H as <- <-; left; eauto|].
  destruct (column_error (user_columns u)) eqn:Ec; [injection H as <- <-; left; eauto|].
  destruct (existsb _ _); injection H as <- <-; [left; eauto | right].
  cbn in Ec. destruct (uuid_ok (u_id u)); [auto | discriminate].
Qed.

Lemma insert_customer_spec cu s s' r : insert_customer cu s = (s', r) ->
  (s' = s /\ exists e, r = inl e) \/
  (s_fault s = None /\ uuid_ok (c_id cu) = true /\
   s' = set_db s (mkDb (t_users (s_db s)) (t_customers (s_db s) ++ [cu])
                       (t_invoices (s_db s)) (t_revenue (s_db s))) /\ r = inr [cu]).
Proof.
  unfold insert_customer. intros H.
  destruct (s_fault s) eqn:Ef; [injection H as <- <-; left; eauto|].
  destruct (column_error (customer_columns cu)) eqn:Ec; [injection H as <- <-; left; eauto|].
  destruct (existsb _ _); injection H as <- <-; [left; eauto | right].
  cbn in Ec. destruct (uuid_ok (c_id cu)); [auto | discriminate].
Qed.

Lemma insert_revenue_spec rv s s' r : insert_revenue rv s = (s', r) ->
  (s' = s /\ exists e, r = inl e) \/
  (s_fault s = None /\
   s' = set_db s (mkDb (t_users (s_db s)) (t_customers (s_db s))
                       (t_invoices (s_db s)) (t_revenue (s_db s) ++ [rv])) /\ r = inr [rv]).
Proof.
  unfold insert_revenue. intros H.
  destruct (s_fault s) eqn:Ef; [injection H as <- <-; left; eauto|].
  destruct (column_error (revenue_columns rv)) eqn:Ec; [injection H as <- <-; left; eauto|].
  destruct (existsb _ _); injection H as <- <-; [left; eauto | right; auto].
Qed.

Lemma length_with_ids n rows : length (with_ids n rows) = length rows.
Proof. revert n; induction rows as [|r rows IH]; intros n; cbn; [reflexivity | now rewrite IH]. Qed.

Lemma insert_invoices_spec rows s s' r : insert_invoices rows s = (s', r) ->
  (s' = s /\ exists e, r = inl e) \/
  (rows <> [] /\ s_fault s = None /\
   s' = mkSt (mkDb (t_users (s_db s)) (t_customers (s_db s))
                   (t_invoices (s_db s) ++ with_ids (s_fresh s) rows) (t_revenue (s_db s)))
             (s_log s) (s_fresh s + length rows) (s_fault s) /\
   r = inr (with_ids (s_fresh s) rows)).
Proof.
  unfold insert_invoices. intros H. destruct rows as [|row rows].
  - injection H as <- <-. left; eauto.
  - destruct (s_fault s) eqn:Ef; [injection H as <- <-; left; eauto|].
    destruct (column_error _); [injection H as <- <-; left; eauto|].
    destruct (forallb _ _); injection H as <- <-; [right | left; eauto].
    split; [discriminate | auto].
Qed.

Lemma user_insert_step P bcrypt_hash u s s' r :
  In u (ph_users P) -> user_insert bcrypt_hash u s = (s', r) ->
  seed_step P bcrypt_hash s s' /\ (forall x, r = inr x -> user_present u (s_db s') = true).
Proof.
  intros Hu H. unfold user_insert, sbind, sret in H.
  destruct (insert_user _ s) as [s1 r1] eqn:E.
  apply insert_user_spec in E as [[Es [e Er]] | (Ef & Hok & Es & Er)]; subst s1 r1; injection H as <- <-.
  - split; [apply seed_step_refl | discriminate].
  - split.
    + split; [|split; [reflexivity|]].
      * repeat split; [exists [mkUser (u_id u) (u_name u) (u_email u) (bcrypt_hash (u_password u))]
                      | exists [] | exists [] | exists []]; cbn; now rewrite ?app_nil_r.
      * exists [hashed_user bcrypt_hash u]. split; [reflexivity|].
        constructor; [exists u; auto | constructor].
    + intros x _. unfold user_present. cbn. apply existsb_app_last. cbn. now apply uuid_eqb_refl.
Qed.

Lemma customer_insert_step P bcrypt_hash cu s s' r :
  customer_insert cu s = (s', r) ->
  seed_step P bcrypt_hash s s' /\ (forall x, r = inr x -> customer_present cu (s_db s') = true).
Proof.
  intros H. unfold customer_insert, sbind, sret in H.
  destruct (insert_customer cu s) as [s1 r1] eqn:E.
  apply insert_customer_spec in E as [[Es [e Er]] | (Ef & Hok & Es & Er)]; subst s1 r1; injection H as <- <-.
  - split; [apply seed_step_refl | discriminate].
  - split.
    + apply seed_step_users; [|reflexivity|reflexivity].
      repeat split; [exists [] | exists [cu] | exists [] | exists []]; cbn; now rewrite ?app_nil_r.
    + intros x _. unfold customer_present. cbn. apply existsb_app_last. now apply uuid_eqb_refl.
Qed.

Lemma revenue_insert_step P bcrypt_hash rv s s' r :
  revenue_insert rv s = (s', r) ->
  seed_step P bcrypt_hash s s' /\ (forall x, r = inr x -> revenue_present rv (s_db s') = true).
Proof.
  intros H. unfold revenue_insert, sbind, sret in H.
  destruct (insert_revenue rv s) as [s1 r1] eqn:E.
  apply insert_revenue_spec in E as [[Es [e Er]] | (Ef & Es & Er)]; subst s1 r1; injection H as <- <-.
  - split; [apply seed_step_refl | discriminate].
  - split.
    + apply seed_step_users; [|reflexivity|reflexivity].
      repeat split; [exists [] | exists [] | exists [] | exists [rv]]; cbn; now rewrite ?app_nil_r.
    + intros x _. unfold revenue_present. cbn. apply existsb_app_last. apply String.eqb_refl.
Qed.

(** The three check-then-insert stages and seedInvoices, as their parts. *)
Lemma seedUsers_eq P bcrypt_hash sched s :
  seedUsers P bcrypt_hash sched s =
    let t := fst (slog (LSeeding SUsers) s) in
    match promise_all user_check (user_insert bcrypt_hash) sched (ph_users P) t with
    | (s1, inl e) => (s1, inl e)
    | (s1, inr l) => (fst (slog (LSeeded SUsers (length l)) s1), inr (length l))
    end.
Proof.
  unfold seedUsers, sbind, sret. cbn [slog fst].
  destruct (promise_all _ _ _ _ _) as [s1 [e|l]]; reflexivity.
Qed.

Lemma seedCustomers_eq P sched s :
  seedCustomers P sched s =
    let t := fst (slog (LSeeding SCustomers) s) in
    match promise_all customer_check customer_insert sched (ph_customers P) t with
    | (s1, inl e) => (s1, inl e)
    | (s1, inr l) => (fst (slog (LSeeded SCustomers (length l)) s1), inr (length l))
    end.
Proof.
  unfold seedCustomers, sbind, sret. cbn [slog fst].
  destruct (promise_all _ _ _ _ _) as [s1 [e|l]]; reflexivity.
Qed.

Lemma seedRevenue_eq P sched s :
  seedRevenue P sched s =
    let t := fst (slog (LSeeding SRevenue) s) in
    match promise_all revenue_check revenue_insert sched (ph_revenue P) t with
    | (s1, inl e) => (s1, inl e)
    | (s1, inr l) => (fst (slog (LSeeded SRevenue (length l)) s1), inr (length l))
    end.
Proof.
  unfold seedRevenue, sbind, sret. cbn [slog fst].
  destruct (promise_all _ _ _ _ _) as [s1 [e|l]]; reflexivity.
Qed.

Lemma seedInvoices_eq P s :
  seedInvoices P s =
    let t := fst (slog (LSeeding SInvoices) s) in
    match s_fault t with
    | Some code => (t, inl (DbError code))
    | None =>
      if (0 <? length (t_invoices (s_db t)))%nat then
        (fst (slog (LSkip (length (t_invoices (s_db t)))) t), inr [])
      else
        match insert_invoices (ph_invoices P) t with
        | (s1, inl e) => (s1, inl e)
        | (s1, inr l) => (fst (slog (LSeeded SInvoices (length l)) s1), inr l)
        end
    end.
Proof.
  unfold seedInvoices, sbind, squery, sselect, sret. cbn [slog fst s_fault s_db].
  destruct (s_fault s); [reflexivity|].
  destruct (0 <? _)%nat; [reflexivity|].
  destruct (insert_invoices _ _) as [s1 [e|l]]; reflexivity.
Qed.

Lemma run_stage_step P bcrypt_hash sch x s s' r :
  run_stage P bcrypt_hash sch x s = (s', r) -> seed_step P bcrypt_hash s s'.
Proof.
  assert (Hlog2 : forall m s1 s2, seed_step P bcrypt_hash s1 s2 ->
            seed_step P bcrypt_hash s1 (fst (slog m s2)))
    by (intros; eapply seed_step_trans; [eassumption | apply seed_step_log]).
  destruct x; cbn [run_stage]; unfold sbind, sret.
  - rewrite seedUsers_eq. cbv zeta.
    destruct (promise_all _ _ _ _ _) as [s1 r1] eqn:E.
    assert (H1 : seed_step P bcrypt_hash s s1).
    { eapply seed_step_trans; [apply (seed_step_log _ _ (LSeeding SUsers))|].
      refine (promise_all_rel _ _ _ _ (seed_step_refl P bcrypt_hash) (seed_step_trans P bcrypt_hash)
                _ _ _ _ _ _ E).
      - intros. apply sselect_state.
      - intros a t t' r' Ha Ht. exact (proj1 (user_insert_step P _ _ _ _ _ Ha Ht)). }
    destruct r1; intros H; injection H as <- _; auto.
  - rewrite seedCustomers_eq. cbv zeta.
    destruct (promise_all _ _ _ _ _) as [s1 r1] eqn:E.
    assert (H1 : seed_step P bcrypt_hash s s1).
    { eapply seed_step_trans; [apply (seed_step_log _ _ (LSeeding SCustomers))|].
      refine (promise_all_rel _ _ _ _ (seed_step_refl P bcrypt_hash) (seed_step_trans P bcrypt_hash)
                _ _ _ _ _ _ E).
      - intros. apply sselect_state.
      - intros a t t' r' _ Ht. exact (proj1 (customer_insert_step P bcrypt_hash _ _ _ _ Ht)). }
    destruct r1; intros H; injection H as <- _; auto.
  - rewrite seedRevenue_eq. cbv zeta.
    destruct (promise_all _ _ _ _ _) as [s1 r1] eqn:E.
    assert (H1 : seed_step P bcrypt_hash s s1).
    { eapply seed_step_trans; [apply (seed_step_log _ _ (LSeeding SRevenue))|].
      refine (promise_all_rel _ _ _ _ (seed_step_refl P bcrypt_hash) (seed_step_trans P bcrypt_hash)
                _ _ _ _ _ _ E).
      - intros. apply sselect_state.
      - intros a t t' r' _ Ht. exact (proj1 (revenue_insert_step P bcrypt_hash _ _ _ _ Ht)). }
    destruct r1; intros H; injection H as <- _; auto.
  - rewrite seedInvoices_eq. cbv zeta.
    set (t := fst (slog (LSeeding SInvoices) s)).
    assert (Ht : seed_step P bcrypt_hash s t) by apply seed_step_log.
    destruct (s_fault t); [intros H; injection H as <- _; exact Ht|].
    destruct (0 <? _)%nat; [intros H; injection H as <- _; auto|].
    destruct (insert_invoices (ph_invoices P) t) as [s1 r1] eqn:E.
    assert (H1 : seed_step P bcrypt_hash s s1).
    { eapply seed_step_trans; [exact Ht|].
      apply insert_invoices_spec in E as [[-> _] | (_ & _ & -> & _)]; [apply seed_step_refl|].
      apply seed_step_users; [|reflexivity|reflexivity].
      repeat split; [exists [] | exists [] | exists (with_ids (s_fresh t) (ph_invoices P)) | exists []];
        cbn; now rewrite ?app_nil_r. }
    destruct r1; intros H; injection H as <- _; auto.
Qed.

Lemma user_insert_le bcrypt_hash u s s' r :
  user_insert bcrypt_hash u s = (s', r) -> db_le (s_db s) (s_db s') /\
  (forall x, r = inr x -> user_present u (s_db s') = true).
Proof.
  intros H. destruct (user_insert_step (mkPlaceholder [u] [] [] []) _ _ _ _ _ (or_introl eq_refl) H)
    as [[D _] Hp]. auto.
Qed.

(** A stage that succeeds leaves its rows in the store. *)
Lemma run_stage_done P bcrypt_hash sch x s s' :
  run_stage P bcrypt_hash sch x s = (s', inr tt) -> stage_done P x (s_db s').
Proof.
  destruct x; cbn [run_stage stage_done]; unfold sbind, sret.
  - rewrite seedUsers_eq. cbv zeta.
    destruct (promise_all _ _ _ _ _) as [s1 [e|l]] eqn:E; [discriminate|].
    intros H. injection H as <-. cbn [slog fst s_db].
    refine (promise_all_present _ _ user_present (fun a t => sselect_state _ t) user_check_true
              _ _ _ _ _ _ _ E).
    + intros a t t' u Ht. exact (proj2 (user_insert_le _ _ _ _ _ Ht) u eq_refl).
    + intros a b t t' r Ht. apply user_present_mono, (proj1 (user_insert_le _ _ _ _ _ Ht)).
  - rewrite seedCustomers_eq. cbv zeta.
    destruct (promise_all _ _ _ _ _) as [s1 [e|l]] eqn:E; [discriminate|].
    intros H. injection H as <-. cbn [slog fst s_db].
    refine (promise_all_present _ _ customer_present (fun a t => sselect_state _ t)
              customer_check_true _ _ _ _ _ _ _ E).
    + intros a t t' u Ht. exact (proj2 (customer_insert_step P bcrypt_hash _ _ _ _ Ht) u eq_refl).
    + intros a b t t' r Ht.
      apply customer_present_mono, (proj1 (customer_insert_step P bcrypt_hash _ _ _ _ Ht)).
  - rewrite seedRevenue_eq. cbv zeta.
    destruct (promise_all _ _ _ _ _) as [s1 [e|l]] eqn:E; [discriminate|].
    intros H. injection H as <-. cbn [slog fst s_db].
    refine (promise_all_present _ _ revenue_present (fun a t => sselect_state _ t)
              revenue_check_true _ _ _ _ _ _ _ E).
    + intros a t t' u Ht. exact (proj2 (revenue_insert_step P bcrypt_hash _ _ _ _ Ht) u eq_refl).
    + intros a b t t' r Ht.
      apply revenue_present_mono, (proj1 (revenue_insert_step P bcrypt_hash _ _ _ _ Ht)).
  - rewrite seedInvoices_eq. cbv zeta. cbn [slog fst s_fault s_db].
    destruct (s_fault s); [discriminate|].
    destruct (0 <? length (t_invoices (s_db s)))%nat eqn:Hn.
    + intros H. injection H as <-. cbn. apply Nat.ltb_lt in Hn. exact Hn.
    + destruct (insert_invoices (ph_invoices P) _) as [s1 r1] eqn:E.
      apply insert_invoices_spec in E as [[-> [e ->]] | (Hne & _ & -> & ->)]; [discriminate|].
      intros H. injection H as <-. cbn. rewrite length_app, length_with_ids.
      destruct (ph_invoices P); [contradiction|]. cbn. lia.
Qed.

(** A stage whose rows are all stored changes no table; without a failure
    it succeeds. *)
Lemma run_stage_skip P bcrypt_hash sch x t :
  stage_done P x (s_db t) ->
  s_db (fst (run_stage P bcrypt_hash sch x t)) = s_db t /\
  s_fault (fst (run_stage P bcrypt_hash sch x t)) = s_fault t /\
  (s_fault t = None -> snd (run_stage P bcrypt_hash sch x t) = inr tt).
Proof.
  destruct x; cbn [run_stage stage_done]; unfold sbind, sret; intros Hd.
  - rewrite seedUsers_eq. cbv zeta.
    destruct (promise_all_unchanged user_check (user_insert bcrypt_hash) user_present
                user_check_present (sc_users sch) (ph_users P) (fst (slog (LSeeding SUsers) t)) Hd)
      as [E1 E2].
    destruct (promise_all _ _ _ _ _) as [s1 [e|l]]; cbn in E1, E2 |- *; subst s1; cbn.
    + split; [reflexivity | split; [reflexivity | intros Hf; specialize (E2 Hf); discriminate]].
    + auto.
  - rewrite seedCustomers_eq. cbv zeta.
    destruct (promise_all_unchanged customer_check customer_insert customer_present
                customer_check_present (sc_customers sch) (ph_customers P)
                (fst (slog (LSeeding SCustomers) t)) Hd) as [E1 E2].
    destruct (promise_all _ _ _ _ _) as [s1 [e|l]]; cbn in E1, E2 |- *; subst s1; cbn.
    + split; [reflexivity | split; [reflexivity | intros Hf; specialize (E2 Hf); discriminate]].
    + auto.
  - rewrite seedRevenue_eq. cbv zeta.
    destruct (promise_all_unchanged revenue_check revenue_insert revenue_present
                revenue_check_present (sc_revenue sch) (ph_revenue P)
                (fst (slog (LSeeding SRevenue) t)) Hd) as [E1 E2].
    destruct (promise_all _ _ _ _ _) as [s1 [e|l]]; cbn in E1, E2 |- *; subst s1; cbn.
    + split; [reflexivity | split; [reflexivity | intros Hf; specialize (E2 Hf); discriminate]].
    + auto.
  - rewrite seedInvoices_eq. cbv zeta. cbn [slog fst s_fault s_db].
    destruct (s_fault t); [cbn; split; [reflexivity | split; [reflexivity | discriminate]]|].
    apply Nat.ltb_lt in Hd. rewrite Hd. cbn. auto.
Qed.

Lemma run_stages_step P bcrypt_hash sch xs s s' r :
  run_stages (run_stage P bcrypt_hash sch) xs s = (s', r) -> seed_step P bcrypt_hash s s'.
Proof.
  revert s. induction xs as [|x xs IH]; intros s H; cbn in H.
  - injection H as <- _. apply seed_step_refl.
  - unfold sbind in H. destruct (run_stage P bcrypt_hash sch x s) as [s1 [e|[]]] eqn:E.
    + injection H as <- _. eapply run_stage_step, E.
    + eapply seed_step_trans; [eapply run_stage_step, E | eapply IH, H].
Qed.

Lemma run_stages_done P bcrypt_hash sch xs s s' :
  run_stages (run_stage P bcrypt_hash sch) xs s = (s', inr tt) ->
  Forall (fun x => stage_done P x (s_db s')) xs.
Proof.
  revert s. induction xs as [|x xs IH]; intros s H; cbn in H; [constructor|].
  unfold sbind in H. destruct (run_stage P bcrypt_hash sch x s) as [s1 [e|[]]] eqn:E;
    [discriminate|].
  constructor; [|exact (IH _ H)].
  eapply stage_done_mono; [exact (proj1 (run_stages_step _ _ _ _ _ _ _ H)) | eapply run_stage_done, E].
Qed.

Lemma run_stages_skip P bcrypt_hash sch xs t :
  Forall (fun x => stage_done P x (s_db t)) xs ->
  s_db (fst (run_stages (run_stage P bcrypt_hash sch) xs t)) = s_db t /\
  s_fault (fst (run_stages (run_stage P bcrypt_hash sch) xs t)) = s_fault t /\
  (s_fault t = None -> snd (run_stages (run_stage P bcrypt_hash sch) xs t) = inr tt).
Proof.
  revert t. induction xs as [|x xs IH]; intros t Hd; cbn; [auto|].
  inversion Hd as [|? ? Hx Hxs]; subst.
  destruct (run_stage_skip P bcrypt_hash sch x t Hx) as (D & F & R).
  unfold sbind. destruct (run_stage P bcrypt_hash sch x t) as [t1 [e|[]]]; cbn in D, F, R |- *.
  - split; [exact D | split; [exact F | intros Hf; specialize (R Hf); discriminate]].
  - assert (Hd1 : Forall (fun x => stage_done P x (s_db t1)) xs) by now rewrite D.
    destruct (IH t1 Hd1) as (D1 & F1 & R1). rewrite D1, F1, D, F.
    split; [reflexivity | split; [reflexivity | intros Hf; apply R1; congruence]].
Qed.

(** *** seedDatabase *)

(** seedDatabase is [run_stages stage_order] between its first and last
    log line; on a failure it logs and rethrows. *)
Lemma seedDatabase_with_eq (run : stage -> SM unit) (s : st) :
  seedDatabase_with run s =
    match run_stages run stage_order (fst (slog LStart s)) with
    | (s1, inl e) => (mkSt (s_db s1) (s_log s1 ++ [LError]) (s_fresh s1) (s_fault s1), inl e)
    | (s1, inr _) => (mkSt (s_db s1) (s_log s1 ++ [LDone]) (s_fresh s1) (s_fault s1), inr tt)
    end.
Proof.
  unfold seedDatabase_with, stry, run_stages, stage_order, sbind, slog, sthrow, sret.
  cbv beta iota. cbn [fst].
  destruct (run SUsers _) as [s1 [e|[]]]; [reflexivity|].
  destruct (run SCustomers s1) as [s2 [e|[]]]; [reflexivity|].
  destruct (run SRevenue s2) as [s3 [e|[]]]; [reflexivity|].
  destruct (run SInvoices s3) as [s4 [e|[]]]; reflexivity.
Qed.

Lemma run_stages_fail_split (run : stage -> SM unit) (xs : list stage) (s s' : st) (e : js_error) :
  run_stages run xs s = (s', inl e) ->
  exists pre x post s1, xs = pre ++ x :: post /\
    run_stages run pre s = (s1, inr tt) /\ run x s1 = (s', inl e).
Proof.
  revert s. induction xs as [|x xs IH]; intros s H; cbn in H; [discriminate|].
  unfold sbind in H. destruct (run x s) as [s1 [e1|[]]] eqn:E.
  - injection H as <- <-. exists [], x, xs, s. split; [reflexivity|]. split; [reflexivity | exact E].
  - destruct (IH _ H) as (pre & y & post & s2 & -> & H1 & H2).
    exists (x :: pre), y, post, s2. split; [reflexivity|]. split; [|exact H2].
    cbn. unfold sbind. now rewrite E.
Qed.

Lemma seedDatabase_step P bcrypt_hash sch s :
  seed_step P bcrypt_hash s (fst (seedDatabase P bcrypt_hash sch s)).
Proof.
  unfold seedDatabase. rewrite seedDatabase_with_eq.
  destruct (run_stages _ stage_order (fst (slog LStart s))) as [s1 r] eqn:E.
  apply run_stages_step in E. destruct E as (D & F & U).
  destruct r; (split; [exact D | split; [exact F | exact U]]).
Qed.

(** After a run that succeeded, a later run on the store it left inserts
    nothing, and succeeds unless the store fails. *)
Lemma seed_rerun_after_success P bcrypt_hash sch1 sch2 s0 t :
  snd (seedDatabase P bcrypt_hash sch1 s0) = inr tt ->
  s_db t = s_db (fst (seedDatabase P bcrypt_hash sch1 s0)) ->
  s_db (fst (seedDatabase P bcrypt_hash sch2 t)) = s_db t /\
  (s_fault t = None -> snd (seedDatabase P bcrypt_hash sch2 t) = inr tt).
Proof.
  unfold seedDatabase. rewrite !seedDatabase_with_eq.
  destruct (run_stages (run_stage P bcrypt_hash sch1) stage_order (fst (slog LStart s0)))
    as [s1 [e|[]]] eqn:E1; cbn [snd fst s_db]; [discriminate|].
  intros _ Ht.
  assert (Hd : Forall (fun x => stage_done P x (s_db (fst (slog LStart t)))) stage_order)
    by (cbn [fst slog s_db]; rewrite Ht; exact (run_stages_done _ _ _ _ _ _ E1)).
  destruct (run_stages_skip P bcrypt_hash sch2 stage_order _ Hd) as (Eb & Ef & Er).
  destruct (run_stages (run_stage P bcrypt_hash sch2) stage_order (fst (slog LStart t)))
    as [s2 r2] eqn:E2. cbn in Eb, Ef, Er.
  destruct r2 as [e|[]]; cbn.
  - split; [exact Eb | intros Hf; specialize (Er Hf); discriminate].
  - split; [exact Eb | reflexivity].
Qed.

(** C4 (corrected): once a run of seedDatabase has succeeded, a later run
    on the store it left, whatever the order the store serves either
    run's queries in, changes no table (so every row count stays), and it
    succeeds when the store does not fail: every placeholder user,
    customer and revenue month is found by its key, and the invoice table
    is not empty.  On a working store with invoices, seedInvoices skips:
    it logs the count found, inserts nothing and returns no row. *)
Theorem seedDatabase_twice_unchanged (P : placeholder) (bcrypt_hash : string -> string)
    (sch1 sch2 : schedules) (s0 t : st) :
  snd (seedDatabase P bcrypt_hash sch1 s0) = inr tt ->
  s_db t = s_db (fst (seedDatabase P bcrypt_hash sch1 s0)) ->
  (s_db (fst (seedDatabase P bcrypt_hash sch2 t)) = s_db t /\
   (s_fault t = None -> snd (seedDatabase P bcrypt_hash sch2 t) = inr tt)) /\
  (forall s, s_fault s = None -> (0 < length (t_invoices (s_db s)))%nat ->
   seedInvoices P s =
     (mkSt (s_db s) ((s_log s ++ [LSeeding SInvoices]) ++ [LSkip (length (t_invoices (s_db s)))])
           (s_fresh s) (s_fault s), inr [])).
Proof.
  intros H1 Ht. split; [exact (seed_rerun_after_success P bcrypt_hash sch1 sch2 s0 t H1 Ht)|].
  intros s Hf Hn. rewrite seedInvoices_eq. cbn [slog fst s_fault s_db]. rewrite Hf.
  apply Nat.ltb_lt in Hn. rewrite Hn. reflexivity.
Qed.

Lemma seedDatabase_twice_unchanged_witness :
  s_db (fst (seedDatabase ph_ok hash_ex sch_race (fst (seedDatabase ph_ok hash_ex sch_seq seed_empty))))
    = s_db (fst (seedDatabase ph_ok hash_ex sch_seq seed_empty)) /\
  snd (seedDatabase ph_ok hash_ex sch_race (fst (seedDatabase ph_ok hash_ex sch_seq seed_empty)))
    = inr tt.
Proof.
  destruct (proj1 (seedDatabase_twice_unchanged ph_ok hash_ex sch_seq sch_race seed_empty
                     (fst (seedDatabase ph_ok hash_ex sch_seq seed_empty))
                     ltac:(vm_compute; reflexivity) eq_refl)) as [E1 E2].
  split; [exact E1 | apply E2; vm_compute; reflexivity].
Defined.

(** C4 fails after a failed run: with a user listed twice in the
    placeholder data and both existence checks served before either
    insert, the first run inserts the user once, fails with a unique
    violation (23505) and seeds no customer; a second run finds both
    users, goes on, and inserts the customer (and the revenue and the
    invoices): the customers table grows from 0 to 1 row. *)
Lemma seedDatabase_rerun_counterexample :
  snd (seedDatabase ph_dup_id hash_ex sch_race seed_empty) = inl (DbError "23505") /\
  length (t_users (s_db (fst (seedDatabase ph_dup_id hash_ex sch_race seed_empty)))) = 1%nat /\
  t_customers (s_db (fst (seedDatabase ph_dup_id hash_ex sch_race seed_empty))) = [] /\
  snd (seedDatabase ph_dup_id hash_ex sch_race
         (fst (seedDatabase ph_dup_id hash_ex sch_race seed_empty))) = inr tt /\
  length (t_customers (s_db (fst (seedDatabase ph_dup_id hash_ex sch_race
         (fst (seedDatabase ph_dup_id hash_ex sch_race seed_empty)))))) = 1%nat.
Proof. vm_compute. repeat split; reflexivity. Qed.

(** C9: seedDatabase (its body [seedDatabase_with], the same in both
    seeds, whatever the stages do) runs the stages users, customers,
    revenue, invoices in that order; the Drizzle seedDatabase is that body
    over its four stages.  On success every stage has run.  On a failure,
    some stage [x] failed after all stages before it succeeded;
    seedDatabase rethrows exactly [x]'s error, and its final state is the
    state [x] left with only the error line logged: no later stage runs. *)
Theorem seedDatabase_stages_in_order (run : stage -> SM unit) (s : st) :
  stage_order = [SUsers; SCustomers; SRevenue; SInvoices] /\
  (forall P bcrypt_hash sch,
     seedDatabase P bcrypt_hash sch = seedDatabase_with (run_stage P bcrypt_hash sch)) /\
  (forall s', seedDatabase_with run s = (s', inr tt) ->
     exists s1, run_stages run stage_order (fst (slog LStart s)) = (s1, inr tt) /\
       s' = mkSt (s_db s1) (s_log s1 ++ [LDone]) (s_fresh s1) (s_fault s1)) /\
  (forall s' e, seedDatabase_with run s = (s', inl e) ->
     exists pre x post s1 s2, stage_order = pre ++ x :: post /\
       run_stages run pre (fst (slog LStart s)) = (s1, inr tt) /\
       run x s1 = (s2, inl e) /\
       s' = mkSt (s_db s2) (s_log s2 ++ [LError]) (s_fresh s2) (s_fault s2)).
Proof.
  split; [reflexivity|]. split; [reflexivity|]. rewrite seedDatabase_with_eq.
  destruct (run_stages run stage_order (fst (slog LStart s))) as [s1 [e1|[]]] eqn:E.
  - split; [discriminate|]. intros s' e H. injection H as <- <-.
    destruct (run_stages_fail_split _ _ _ _ _ E) as (pre & x & post & s0 & Ho & H1 & H2).
    exists pre, x, post, s0, s1. auto.
  - split; [|discriminate]. intros s' H. injection H as <-. eauto.
Qed.

Lemma seedDatabase_stages_in_order_witness :
  (exists pre x post s1 s2, stage_order = pre ++ x :: post /\
     run_stages (run_stage ph_dup_email hash_ex sch_seq) pre (fst (slog LStart seed_empty)) =
       (s1, inr tt) /\
     run_stage ph_dup_email hash_ex sch_seq x s1 = (s2, inl (DbError "23505")) /\
     fst (seedDatabase ph_dup_email hash_ex sch_seq seed_empty) =
       mkSt (s_db s2) (s_log s2 ++ [LError]) (s_fresh s2) (s_fault s2)) /\
  snd (run_stage ph_dup_email hash_ex sch_seq SUsers (fst (slog LStart seed_empty))) =
    inl (DbError "23505") /\
  t_customers (s_db (fst (seedDatabase ph_dup_email hash_ex sch_seq seed_empty))) = [] /\
  t_revenue (s_db (fst (seedDatabase ph_dup_email hash_ex sch_seq seed_empty))) = [] /\
  t_invoices (s_db (fst (seedDatabase ph_dup_email hash_ex sch_seq seed_empty))) = [].
Proof.
  split.
  - apply (proj2 (proj2 (proj2 (seedDatabase_stages_in_order
             (run_stage ph_dup_email hash_ex sch_seq) seed_empty)))).
    vm_compute. reflexivity.
  - vm_compute. repeat split; reflexivity.
Defined.

(** ** The seeding route *)

Lemma GET_eq (P : placeholder) (bcrypt_hash : string -> string) (sch : schedules) (s : st) :
  GET P bcrypt_hash sch s =
    (fst (seedDatabase P bcrypt_hash sch s),
     inr (match snd (seedDatabase P bcrypt_hash sch s) with
          | inl _ => mkResponse 500 (JError "Failed to seed database")
          | inr _ => mkResponse 200 (JMessage "Database seeded successfully")
          end)).
Proof.
  unfold GET, stry, sbind, sret.
  destruct (seedDatabase P bcrypt_hash sch s) as [s1 [e|[]]]; reflexivity.
Qed.

(** X12: the seeding route never rejects: it answers 200 with the success
    message when seedDatabase succeeds and 500 with the error body when it
    throws, and leaves the store as seedDatabase left it.  After an answer
    200, calling it again on a working store answers 200 again and changes
    no table. *)
Theorem GET_seed_route (P : placeholder) (bcrypt_hash : string -> string) (sch : schedules)
    (s0 : st) :
  s_db (fst (GET P bcrypt_hash sch s0)) = s_db (fst (seedDatabase P bcrypt_hash sch s0)) /\
  (forall e, snd (seedDatabase P bcrypt_hash sch s0) = inl e ->
     snd (GET P bcrypt_hash sch s0) = inr (mkResponse 500 (JError "Failed to seed database"))) /\
  (snd (seedDatabase P bcrypt_hash sch s0) = inr tt ->
     snd (GET P bcrypt_hash sch s0) = inr (mkResponse 200 (JMessage "Database seeded successfully"))) /\
  (snd (GET P bcrypt_hash sch s0) = inr (mkResponse 200 (JMessage "Database seeded successfully")) ->
   forall sch2 t, s_db t = s_db (fst (GET P bcrypt_hash sch s0)) -> s_fault t = None ->
     snd (GET P bcrypt_hash sch2 t) = inr (mkResponse 200 (JMessage "Database seeded successfully")) /\
     s_db (fst (GET P bcrypt_hash sch2 t)) = s_db t).
Proof.
  rewrite !GET_eq. cbn [fst snd].
  split; [reflexivity|]. split; [intros e ->; reflexivity|]. split; [intros ->; reflexivity|].
  intros H200 sch2 t Ht Hf. rewrite GET_eq. cbn [fst snd].
  assert (Hok : snd (seedDatabase P bcrypt_hash sch s0) = inr tt)
    by (destruct (snd (seedDatabase P bcrypt_hash sch s0)) as [e|[]]; [discriminate | reflexivity]).
  destruct (seed_rerun_after_success P bcrypt_hash sch sch2 s0 t Hok Ht) as [E1 E2].
  rewrite (E2 Hf). split; [reflexivity | exact E1].
Qed.

Lemma GET_seed_route_witness :
  snd (GET ph_dup_email hash_ex sch_seq seed_empty) =
    inr (mkResponse 500 (JError "Failed to seed database")) /\
  snd (GET ph_ok hash_ex sch_race (fst (GET ph_ok hash_ex sch_seq seed_empty))) =
    inr (mkResponse 200 (JMessage "Database seeded successfully")) /\
  s_db (fst (GET ph_ok hash_ex sch_race (fst (GET ph_ok hash_ex sch_seq seed_empty)))) =
    s_db (fst (GET ph_ok hash_ex sch_seq seed_empty)).
Proof.
  split.
  - apply (proj1 (proj2 (GET_seed_route ph_dup_email hash_ex sch_seq seed_empty)) (DbError "23505")).
    vm_compute. reflexivity.
  - apply (proj2 (proj2 (proj2 (GET_seed_route ph_ok hash_ex sch_seq seed_empty))));
      [vm_compute; reflexivity | reflexivity | vm_compute; reflexivity].
Defined.

(** ** What the seed writes to the users table *)

(** X14: whatever the store, the order its queries are served in, and
    whether the run succeeds or fails, seedDatabase only appends to the
    users table, and every row it appends is a placeholder user with its
    password replaced by [bcrypt.hash] of it: the plain password is never
    written. *)
Theorem seedDatabase_stores_hashed_users (P : placeholder) (bcrypt_hash : string -> string)
    (sch : schedules) (s0 : st) :
  exists a, t_users (s_db (fst (seedDatabase P bcrypt_hash sch s0))) = t_users (s_db s0) ++ a /\
    Forall (fun v => exists u, In u (ph_users P) /\
                       v = mkUser (u_id u) (u_name u) (u_email u) (bcrypt_hash (u_password u))) a.
Proof. exact (proj2 (proj2 (seedDatabase_step P bcrypt_hash sch s0))). Qed.
